(** * solid-aria: the collection and selectable-collection core

    A shallow embedding of
    - [packages/collection/src/createCollection.ts] (module [Collection]),
    - [packages/utils/src/handler.ts] (module [Handler]),
    - [packages/selection/src/createSelectableCollection.ts]
      (module [SelectableCollection]),
    together with the properties of these functions stated in the
    repository's specification. *)

From Stdlib Require Import List ZArith String Ascii Bool Lia Sorted.
Import ListNotations.
Open Scope string_scope.
Open Scope list_scope.
Open Scope Z_scope.

(** ** JavaScript array primitives used by the sources *)

Module JsArray.

Section Generic.
Context {A : Type}.

(** [arr[i]] for an integer [i]: [None] stands for [undefined]. *)
Definition at_index (arr : list A) (i : Z) : option A :=
  if i <? 0 then None else nth_error arr (Z.to_nat i).

(** [arr.length]. *)
Definition len (arr : list A) : Z := Z.of_nat (List.length arr).

(** [arr.findIndex(p)], scanning from the index [i] of the head. *)
Fixpoint findIndexFrom (p : A -> bool) (arr : list A) (i : Z) : Z :=
  match arr with
  | [] => -1
  | x :: rest => if p x then i else findIndexFrom p rest (i + 1)
  end.

Definition findIndex (p : A -> bool) (arr : list A) : Z :=
  findIndexFrom p arr 0.

(** What a scan finds: either nothing, and the answer is [-1], or the
    first element satisfying [p], at offset [k] from the start. *)
Inductive Scan (p : A -> bool) (arr : list A) (i : Z)
    : Z -> option A -> Prop :=
| ScanMiss :
    (forall x, In x arr -> p x = false) ->
    Scan p arr i (-1) None
| ScanHit (k : nat) (x : A) :
    nth_error arr k = Some x ->
    p x = true ->
    (forall j y, (j < k)%nat -> nth_error arr j = Some y -> p y = false) ->
    Scan p arr i (i + Z.of_nat k) (Some x).

(** The relative-index clamping of [Array.prototype.slice]. *)
Definition relIndex (k n : Z) : Z :=
  if k <? 0 then Z.max (n + k) 0 else Z.min k n.

(** [arr.slice(start, end)]. *)
Definition slice (arr : list A) (start stop : Z) : list A :=
  let from := relIndex start (len arr) in
  let to := relIndex stop (len arr) in
  firstn (Z.to_nat (to - from)) (skipn (Z.to_nat from) arr).

(** [arr.slice(start)]. *)
Definition slice_from (arr : list A) (start : Z) : list A :=
  slice arr start (len arr).
End Generic.

End JsArray.

(** ** packages/collection/src/createCollection.ts *)

Module Collection.
Import JsArray.

(** An [Item] object.  [oid] is the identity of the JavaScript object
    (what [===] and [indexOf] compare); [ref] names the item's root
    element and [isDisabled] is the current value of the accessor. *)
Record Item : Type := mkItem {
  oid : nat;
  key : string;
  textValue : string;
  ref : nat;
  isDisabled : bool
}.

Definition Item_eq_dec (a b : Item) : {a = b} + {a <> b}.
Proof.
  decide equality;
    try apply Bool.bool_dec; try apply Nat.eq_dec; apply string_dec.
Defined.

Definition same_object (a b : Item) : bool :=
  if Item_eq_dec a b then true else false.

(** The value of the [items] signal. *)
Definition Collection : Type := list Item.

(** [createCollection()] starts from the empty array. *)
Definition createCollection : Collection := [].

Definition keys (items : Collection) : list string := map key items.

(** [!items() || items().length <= 0]; the signal always holds an array,
    which is truthy, so the length test decides. *)
Definition isCollectionEmpty (items : Collection) : bool :=
  len items <=? 0.

Definition addItem (item : Item) (items : Collection) : Collection :=
  items ++ [item].

Definition removeItem (k : string) (items : Collection) : Collection :=
  filter (fun item => negb (key item =? k)%string) items.

(** [items()[index] ?? null]; [None] is [null]. *)
Definition findByIndex (items : Collection) (index : Z) : option Item :=
  at_index items index.

Definition findByKey (items : Collection) (k : string) : option Item :=
  find (fun item => (key item =? k)%string) items.

(** The parameter is optional in the source: [None] is [undefined],
    which is [===] to no item key. *)
Definition key_is (k : option string) (item : Item) : bool :=
  match k with
  | Some s => (key item =? s)%string
  | None => false
  end.

Definition findIndexByKey (items : Collection) (k : option string) : Z :=
  findIndex (key_is k) items.

Definition getFirstIndex (items : Collection) : Z :=
  if isCollectionEmpty items then -1 else 0.

Definition getLastIndex (items : Collection) : Z :=
  if isCollectionEmpty items then -1 else len items - 1.

Definition isFirstIndex (items : Collection) (index : Z) : bool :=
  if isCollectionEmpty items then false else index =? getFirstIndex items.

Definition isLastIndex (items : Collection) (index : Z) : bool :=
  if isCollectionEmpty items then false else index =? getLastIndex items.

(** [resolvedItems.indexOf(x)] where [x] may be [undefined]: the array
    holds item objects only, so [undefined] is found nowhere. *)
Definition indexOf (items : Collection) (x : option Item) : Z :=
  match x with
  | Some it => findIndex (same_object it) items
  | None => -1
  end.

(** [filter.split("")]: one string per character. *)
Fixpoint split_chars (s : string) : list string :=
  match s with
  | EmptyString => []
  | String c rest => String c EmptyString :: split_chars rest
  end.

(** [filter[0]]: [undefined] on the empty string. *)
Definition first_char (s : string) : option string :=
  match s with
  | EmptyString => None
  | String c _ => Some (String c EmptyString)
  end.

Definition same_letter (a : string) (b : option string) : bool :=
  match b with
  | Some s => (a =? s)%string
  | None => false
  end.

Definition allSameLetter (array : list string) : bool :=
  forallb (fun letter => same_letter letter (hd_error array)) array.

Section Search.
(** [Intl.Collator] and the prefix test that [filterItems] of
    [./utils] applies to an item's [textValue].  The second argument
    of the test is the filter as the call site passes it, [None]
    being the [undefined] that [filter[0]] yields on an empty filter. *)
Variable Collator : Type.
Variable isStartingWith : Collator -> string -> option string -> bool.

(** Modelled from the spec: [filterItems] of
    [packages/collection/src/utils.ts], which keeps, in order, the items
    whose [textValue] starts with the filter under the collator. *)
Definition filterItems (items : list Item) (flt : option string)
    (collator : Collator) : list Item :=
  filter (fun item => isStartingWith collator (textValue item) flt) items.

Definition orderedItems (resolvedItems : Collection) (startIndex : Z)
    : list Item :=
  slice_from resolvedItems startIndex ++ slice resolvedItems 0 startIndex.

Definition findIndexBySearch (items : Collection) (flt : string)
    (collator : Collator) (startIndex : Z) : Z :=
  let resolvedItems := items in
  let ordered := orderedItems resolvedItems startIndex in
  let firstMatch := hd_error (filterItems ordered (Some flt) collator) in
  match firstMatch with
  | Some it => indexOf resolvedItems (Some it)
  | None =>
      if allSameLetter (split_chars flt) then
        let matches := filterItems ordered (first_char flt) collator in
        indexOf resolvedItems (hd_error matches)
      else -1
  end.
End Search.

(** [r] is the original index of the item object [it]: the first position
    of the collection that holds it. *)
Definition OriginalIndex (items : Collection) (it : Item) (r : Z) : Prop :=
  findByIndex items r = Some it
  /\ forall j, 0 <= j < r -> findByIndex items j <> Some it.

(** The items in wrap-around order from position [n]: those from [n] to
    the end, then those before [n]. *)
Definition wrapAroundFrom (n : nat) (items : list Item) : list Item :=
  skipn n items ++ firstn n items.

(** The string made of [n] copies of the character [ch]. *)
Fixpoint repeated (ch : ascii) (n : nat) : string :=
  match n with
  | O => EmptyString
  | S n' => String ch (repeated ch n')
  end.

End Collection.

(** ** packages/utils/src/handler.ts *)

Module Handler.

Section Handlers.
(** [W] is everything a handler can act on (application state, the
    mutable flags of the event object); [E] is the event handed to the
    handlers and [D] the data of a bound handler [[fn, data]]. *)
Variables W E D : Type.
Variable defaultPrevented : E -> W -> bool.

(** [JSX.EventHandlerUnion<T, E>]: a function, or a pair of a function
    and the data it is bound to. *)
Inductive EventHandlerUnion : Type :=
| FunctionHandler (f : E -> W -> W)
| BoundHandler (f : D -> E -> W -> W) (data : D).

(** The call that [callHandler] makes when the handler is defined. *)
Definition invoke (handler : EventHandlerUnion) (event : E) (w : W) : W :=
  match handler with
  | FunctionHandler f => f event w
  | BoundHandler f data => f data event w
  end.

(** [callHandler(handler, event)]; [None] is an [undefined] handler. *)
Definition callHandler (handler : option EventHandlerUnion) (event : E)
    (w : W) : bool * W :=
  let w' :=
    match handler with
    | Some h => invoke h event w
    | None => w
    end in
  (defaultPrevented event w', w').

(** [chainHandlers(...fns)]: the returned function runs
    [fns.forEach(fn => callHandler(fn, event))]. *)
Definition chainHandlers (fns : list (option EventHandlerUnion))
    : E -> W -> W :=
  fun event w =>
    fold_left (fun acc fn => snd (callHandler fn event acc)) fns w.
End Handlers.

Arguments FunctionHandler {W E D} f.
Arguments BoundHandler {W E D} f data.
Arguments invoke {W E D} handler event w.
Arguments callHandler {W E D} defaultPrevented handler event w.
Arguments chainHandlers {W E D} defaultPrevented fns event w.

(** *** Observing invocations

    To speak about which handlers a chain invokes, every handler is paired
    with a probe that appends its argument position and the event it
    received to a journal kept next to the state. *)
Section Probe.
Variables W E D : Type.

Definition Journal : Type := list (nat * E).

Definition probe (i : nat) (h : EventHandlerUnion W E D)
    : EventHandlerUnion (W * Journal) E D :=
  match h with
  | FunctionHandler f =>
      FunctionHandler (fun ev s => (f ev (fst s), snd s ++ [(i, ev)]))
  | BoundHandler f data =>
      BoundHandler (fun d ev s => (f d ev (fst s), snd s ++ [(i, ev)])) data
  end.

Fixpoint probesFrom (i : nat) (fns : list (option (EventHandlerUnion W E D)))
    : list (option (EventHandlerUnion (W * Journal) E D)) :=
  match fns with
  | [] => []
  | fn :: rest => option_map (probe i) fn :: probesFrom (S i) rest
  end.

(** The journal expected from a chain: the positions of the defined
    handlers, in argument order, each with the event [ev]. *)
Fixpoint expectedFrom (i : nat) (fns : list (option (EventHandlerUnion W E D)))
    (ev : E) : Journal :=
  match fns with
  | [] => []
  | Some _ :: rest => (i, ev) :: expectedFrom (S i) rest ev
  | None :: rest => expectedFrom (S i) rest ev
  end.
End Probe.

Arguments probe {W E D} i h.
Arguments probesFrom {W E D} i fns.
Arguments expectedFrom {W E D} i fns ev.

End Handler.

(** ** packages/selection/src/createSelectableCollection.ts *)

Module SelectableCollection.

Definition ItemKey : Type := string.
Definition Element : Type := nat.

Inductive FocusStrategy : Type := first | last.
Inductive SelectionMode : Type := none | single | multiple.
Inductive SelectionBehavior : Type := toggle | replace.
Inductive Direction : Type := ltr | rtl.

Definition is_multiple (m : SelectionMode) : bool :=
  match m with multiple => true | _ => false end.

Definition is_replace (b : SelectionBehavior) : bool :=
  match b with replace => true | _ => false end.

Definition is_rtl (d : Direction) : bool :=
  match d with rtl => true | _ => false end.

(** Truthiness of an optional boolean prop ([None] is [undefined]). *)
Definition truthy (b : option bool) : bool :=
  match b with Some true => true | _ => false end.

(** The fields of a [KeyboardEvent] that the controller reads. *)
Record KeyboardEvent : Type := mkKeyboardEvent {
  key : string;
  altKey : bool;
  shiftKey : bool;
  ctrlKey : bool;
  metaKey : bool;
  target : Element
}.

(** [KeyboardDelegate] of [@solid-aria/types]: every method is optional
    ([None] when the delegate does not implement it) and answers
    [None] for [undefined].  [getFirstKey] and [getLastKey] take the
    optional arguments [fromKey] and [ctrlKey]. *)
Record KeyboardDelegate : Type := mkKeyboardDelegate {
  getKeyBelow : option (ItemKey -> option ItemKey);
  getKeyAbove : option (ItemKey -> option ItemKey);
  getKeyLeftOf : option (ItemKey -> option ItemKey);
  getKeyRightOf : option (ItemKey -> option ItemKey);
  getKeyPageBelow : option (ItemKey -> option ItemKey);
  getKeyPageAbove : option (ItemKey -> option ItemKey);
  getFirstKey : option (option ItemKey -> option bool -> option ItemKey);
  getLastKey : option (option ItemKey -> option bool -> option ItemKey)
}.

(** [delegate.method?.(fromKey, ctrlKey)] *)
Definition optcall (method : option (option ItemKey -> option bool -> option ItemKey))
    (fromKey : option ItemKey) (ctrl : option bool) : option ItemKey :=
  match method with
  | Some f => f fromKey ctrl
  | None => None
  end.

(** The interface of [MultipleSelectionManager] that the controller
    uses, over a manager state [M]: accessors read the state, the other
    methods update it. *)
Class MultipleSelectionManager (M : Type) : Type := {
  selectionMode : M -> SelectionMode;
  selectionBehavior : M -> SelectionBehavior;
  selectedKeys : M -> list ItemKey;
  focusedKey : M -> option ItemKey;
  setFocusedKey : ItemKey -> option FocusStrategy -> M -> M;
  extendSelection : ItemKey -> M -> M;
  replaceSelection : ItemKey -> M -> M;
  selectAll : M -> M;
  clearSelection : M -> M
}.

(** What a manager owes the controller for focus tracking: the focused
    key is the last one set, setting it does not change the selection
    mode, and selection updates leave the focused key alone. *)
Class FocusTracking (M : Type) `{MultipleSelectionManager M} : Prop := {
  focusedKey_setFocusedKey :
    forall k cf m, focusedKey (setFocusedKey k cf m) = Some k;
  selectionMode_setFocusedKey :
    forall k cf m, selectionMode (setFocusedKey k cf m) = selectionMode m;
  focusedKey_extendSelection :
    forall k m, focusedKey (extendSelection k m) = focusedKey m;
  focusedKey_replaceSelection :
    forall k m, focusedKey (replaceSelection k m) = focusedKey m
}.

(** The props of [createSelectableCollection] read by the keydown
    handler and by [collectionProps]. *)
Record CreateSelectableCollectionProps : Type := mkProps {
  keyboardDelegate : KeyboardDelegate;
  shouldFocusWrap : option bool;
  disallowEmptySelection : option bool;
  disallowSelectAll : option bool;
  selectOnFocus : option bool;
  disallowTypeAhead : option bool;
  shouldUseVirtualFocus : option bool;
  allowsTabNavigation : option bool;
  isVirtualized : option bool
}.

(** What the handler gets from its surroundings: the two modifier
    tests of [./utils], the locale direction, DOM containment, and for an
    element the successive non-null answers of [walker.lastChild()] of a
    tabbable tree walker rooted there. *)
Record Host : Type := mkHost {
  isCtrlKeyPressed : KeyboardEvent -> bool;
  isNonContiguousSelectionModifier : KeyboardEvent -> bool;
  direction : Direction;
  contains : Element -> Element -> bool;
  lastChildren : Element -> list Element
}.

(** Calls made on the manager, the event and the DOM, in order. *)
Inductive Effect : Type :=
| PreventDefault
| SetFocusedKey (k : ItemKey) (childFocus : option FocusStrategy)
| ExtendSelection (k : ItemKey)
| ReplaceSelection (k : ItemKey)
| SelectAll
| ClearSelection
| Focus (el : Element)
| FocusWithoutScrolling (el : Element).

(** The world of one keydown.  [activeElement] is
    [document.activeElement] as the handler finds it; where the handler
    asks the DOM to move the focus, the call is recorded in [trace] and
    the field keeps the value that was read. *)
Record World (M : Type) : Type := mkWorld {
  manager : M;
  defaultPrevented : bool;
  activeElement : option Element;
  trace : list Effect
}.

Arguments mkWorld {M} manager defaultPrevented activeElement trace.
Arguments manager {M} w.
Arguments defaultPrevented {M} w.
Arguments activeElement {M} w.
Arguments trace {M} w.

(** Handlers are state transformers over the world. *)
Definition Action (M A : Type) : Type := World M -> A * World M.

Definition ret {M A} (a : A) : Action M A := fun w => (a, w).

Definition bind {M A B} (c : Action M A) (k : A -> Action M B) : Action M B :=
  fun w => let (a, w') := c w in k a w'.

Notation "x <- c ;; k" := (bind c (fun x => k))
  (at level 61, c at next level, right associativity).
Notation "c ;;; k" := (bind c (fun _ => k))
  (at level 61, right associativity).

Definition exec {M A} (c : Action M A) (w : World M) : World M := snd (c w).

Section Controller.
Context {M : Type} `{MultipleSelectionManager M}.
Variable host : Host.
Variable props : CreateSelectableCollectionProps.
(** [ref()], the collection element, if mounted. *)
Variable ref : option Element.

Definition reads {A} (f : M -> A) : Action M A :=
  fun w => (f (manager w), w).

Definition emit (ef : Effect) : Action M unit :=
  fun w => (tt, mkWorld (manager w) (defaultPrevented w) (activeElement w)
                        (trace w ++ [ef])).

Definition update (f : M -> M) : Action M unit :=
  fun w => (tt, mkWorld (f (manager w)) (defaultPrevented w)
                        (activeElement w) (trace w)).

(** [e.preventDefault()] *)
Definition preventDefault : Action M unit :=
  fun w => (tt, mkWorld (manager w) true (activeElement w)
                        (trace w ++ [PreventDefault])).

Definition call_setFocusedKey (k : ItemKey) (cf : option FocusStrategy)
    : Action M unit :=
  emit (SetFocusedKey k cf) ;;; update (setFocusedKey k cf).

Definition call_extendSelection (k : ItemKey) : Action M unit :=
  emit (ExtendSelection k) ;;; update (extendSelection k).

Definition call_replaceSelection (k : ItemKey) : Action M unit :=
  emit (ReplaceSelection k) ;;; update (replaceSelection k).

Definition call_selectAll : Action M unit :=
  emit SelectAll ;;; update selectAll.

Definition call_clearSelection : Action M unit :=
  emit ClearSelection ;;; update clearSelection.

Definition when (b : bool) (c : Action M unit) : Action M unit :=
  if b then c else ret tt.

(** [refEl?.contains(x)], with [x] possibly [null]. *)
Definition contains_opt (el : option Element) (x : option Element) : bool :=
  match el, x with
  | Some r, Some t => contains host r t
  | _, _ => false
  end.

(** [access(props.selectOnFocus)] after [mergeProps(defaultProps, props)]:
    an absent prop falls back to
    [selectionManager.selectionBehavior() === "replace"]. *)
Definition access_selectOnFocus (m : M) : bool :=
  match selectOnFocus props with
  | Some b => b
  | None => is_replace (selectionBehavior m)
  end.

Definition navigateToKey (e : KeyboardEvent) (selectOnFocus : bool)
    (k : option ItemKey) (childFocus : option FocusStrategy)
    : Action M unit :=
  match k with
  | Some k =>
      call_setFocusedKey k childFocus ;;;
      mode <- reads selectionMode ;;
      if shiftKey e && is_multiple mode then
        call_extendSelection k
      else if selectOnFocus && negb (isNonContiguousSelectionModifier host e) then
        call_replaceSelection k
      else ret tt
  | None => ret tt
  end.

(** The [Tab] case once [!allowsTabNavigation && refEl] holds. *)
Definition tabOut (e : KeyboardEvent) (refEl : Element) : Action M unit :=
  if shiftKey e then emit (Focus refEl)
  else
    let next := List.last (map Some (lastChildren host refEl)) None in
    match next with
    | Some n =>
        fun w =>
          if negb (contains_opt (Some n) (activeElement w))
          then emit (FocusWithoutScrolling n) w
          else ret tt w
    | None => ret tt
    end.

Definition onKeyDown (e : KeyboardEvent) : Action M unit :=
  when (altKey e && (key e =? "Tab")%string) preventDefault ;;;
  let refEl := ref in
  if negb (contains_opt refEl (Some (target e))) then ret tt else
  selectOnFocus <- reads access_selectOnFocus ;;
  let navigateToKey := navigateToKey e selectOnFocus in
  let delegate := keyboardDelegate props in
  let shouldFocusWrap := truthy (shouldFocusWrap props) in
  focusedKey <- reads focusedKey ;;
  if (key e =? "ArrowDown")%string then
    match getKeyBelow delegate with
    | Some getKeyBelow =>
        preventDefault ;;;
        let nextKey :=
          match focusedKey with
          | Some fk => getKeyBelow fk
          | None => optcall (getFirstKey delegate) None None
          end in
        let nextKey :=
          match nextKey with
          | None =>
              if shouldFocusWrap
              then optcall (getFirstKey delegate) focusedKey None
              else nextKey
          | Some _ => nextKey
          end in
        navigateToKey nextKey None
    | None => ret tt
    end
  else if (key e =? "ArrowUp")%string then
    match getKeyAbove delegate with
    | Some getKeyAbove =>
        preventDefault ;;;
        let nextKey :=
          match focusedKey with
          | Some fk => getKeyAbove fk
          | None => optcall (getLastKey delegate) None None
          end in
        let nextKey :=
          match nextKey with
          | None =>
              if shouldFocusWrap
              then optcall (getLastKey delegate) focusedKey None
              else nextKey
          | Some _ => nextKey
          end in
        navigateToKey nextKey None
    | None => ret tt
    end
  else if (key e =? "ArrowLeft")%string then
    match getKeyLeftOf delegate with
    | Some getKeyLeftOf =>
        preventDefault ;;;
        let isRTL := is_rtl (direction host) in
        let nextKey :=
          match focusedKey with
          | Some fk => getKeyLeftOf fk
          | None =>
              if isRTL then optcall (getFirstKey delegate) None None
              else optcall (getLastKey delegate) None None
          end in
        navigateToKey nextKey (Some (if isRTL then first else last))
    | None => ret tt
    end
  else if (key e =? "ArrowRight")%string then
    match getKeyRightOf delegate with
    | Some getKeyRightOf =>
        preventDefault ;;;
        let isRTL := is_rtl (direction host) in
        let nextKey :=
          match focusedKey with
          | Some fk => getKeyRightOf fk
          | None =>
              if isRTL then optcall (getLastKey delegate) None None
              else optcall (getFirstKey delegate) None None
          end in
        navigateToKey nextKey (Some (if isRTL then last else first))
    | None => ret tt
    end
  else if (key e =? "Home")%string then
    match getFirstKey delegate with
    | Some getFirstKey =>
        preventDefault ;;;
        let firstKey := getFirstKey focusedKey (Some (isCtrlKeyPressed host e)) in
        match firstKey with
        | Some firstKey =>
            call_setFocusedKey firstKey None ;;;
            mode <- reads selectionMode ;;
            if isCtrlKeyPressed host e && shiftKey e && is_multiple mode then
              call_extendSelection firstKey
            else if selectOnFocus then
              call_replaceSelection firstKey
            else ret tt
        | None => ret tt
        end
    | None => ret tt
    end
  else if (key e =? "End")%string then
    match getLastKey delegate with
    | Some getLastKey =>
        preventDefault ;;;
        let lastKey := getLastKey focusedKey (Some (isCtrlKeyPressed host e)) in
        match lastKey with
        | Some lastKey =>
            call_setFocusedKey lastKey None ;;;
            mode <- reads selectionMode ;;
            if isCtrlKeyPressed host e && shiftKey e && is_multiple mode then
              call_extendSelection lastKey
            else if selectOnFocus then
              call_replaceSelection lastKey
            else ret tt
        | None => ret tt
        end
    | None => ret tt
    end
  else if (key e =? "PageDown")%string then
    match getKeyPageBelow delegate, focusedKey with
    | Some getKeyPageBelow, Some fk =>
        preventDefault ;;;
        let nextKey := getKeyPageBelow fk in
        navigateToKey nextKey None
    | _, _ => ret tt
    end
  else if (key e =? "PageUp")%string then
    match getKeyPageAbove delegate, focusedKey with
    | Some getKeyPageAbove, Some fk =>
        preventDefault ;;;
        let nextKey := getKeyPageAbove fk in
        navigateToKey nextKey None
    | _, _ => ret tt
    end
  else if (key e =? "a")%string then
    mode <- reads selectionMode ;;
    if isCtrlKeyPressed host e && is_multiple mode
       && negb (truthy (disallowSelectAll props))
    then preventDefault ;;; call_selectAll
    else ret tt
  else if (key e =? "Escape")%string then
    preventDefault ;;;
    when (negb (truthy (disallowEmptySelection props))) call_clearSelection
  else if (key e =? "Tab")%string then
    match truthy (allowsTabNavigation props), refEl with
    | false, Some r => tabOut e r
    | _, _ => ret tt
    end
  else ret tt.

(** The [tabIndex] that the [collectionProps] memo computes; [None] is
    the [undefined] left in the variable when virtual focus is used. *)
Definition tabIndex (m : M) : option Z :=
  if negb (truthy (shouldUseVirtualFocus props))
  then Some (match focusedKey m with None => 0 | Some _ => -1 end)
  else None.
End Controller.

(** *** Vocabulary for stating what a handler did *)

Section Outcomes.
Context {M : Type} `{MultipleSelectionManager M}.

(** The world after [e.preventDefault()]. *)
Definition prevented (w : World M) : World M :=
  mkWorld (manager w) true (activeElement w) (trace w ++ [PreventDefault]).

(** The world after one manager call, recorded as [ef], that turns the
    manager state [m] into [f m]. *)
Definition invoked (ef : Effect) (f : M -> M) (w : World M) : World M :=
  mkWorld (f (manager w)) (defaultPrevented w) (activeElement w)
          (trace w ++ [ef]).

(** A neighbour query: from the focused key when there is one, else the
    entry key of the collection. *)
Definition neighbourOrEntry (method : ItemKey -> option ItemKey)
    (entry : option ItemKey) (focused : option ItemKey) : option ItemKey :=
  match focused with
  | Some fk => method fk
  | None => entry
  end.

(** The wrap rule: with no neighbour and wrapping enabled, the key at
    the opposite end. *)
Definition orWrap (wrap : bool) (k opposite : option ItemKey)
    : option ItemKey :=
  match k with
  | Some _ => k
  | None => if wrap then opposite else None
  end.

(** The key that the keyboard delegate resolves for a navigation keydown,
    written after the key table of the specification (section 4.3): for
    each of the six navigation keys, the delegate capability it requires,
    the query made, and the focus strategy hint.  The outer [None] means
    that the key is not a navigation key handled by this delegate (or, for
    the page keys, that nothing is focused); the inner option is the
    delegate's answer. *)
Definition delegateTarget (host : Host)
    (props : CreateSelectableCollectionProps) (e : KeyboardEvent)
    (focused : option ItemKey)
    : option (option ItemKey * option FocusStrategy) :=
  let d := keyboardDelegate props in
  let wrap := truthy (shouldFocusWrap props) in
  let firstKey := optcall (getFirstKey d) None None in
  let lastKey := optcall (getLastKey d) None None in
  let rtlLocale := is_rtl (direction host) in
  if (key e =? "ArrowDown")%string then
    option_map (fun below =>
      (orWrap wrap (neighbourOrEntry below firstKey focused)
              (optcall (getFirstKey d) focused None), None))
      (getKeyBelow d)
  else if (key e =? "ArrowUp")%string then
    option_map (fun above =>
      (orWrap wrap (neighbourOrEntry above lastKey focused)
              (optcall (getLastKey d) focused None), None))
      (getKeyAbove d)
  else if (key e =? "ArrowLeft")%string then
    option_map (fun leftOf =>
      (neighbourOrEntry leftOf (if rtlLocale then firstKey else lastKey) focused,
       Some (if rtlLocale then first else last)))
      (getKeyLeftOf d)
  else if (key e =? "ArrowRight")%string then
    option_map (fun rightOf =>
      (neighbourOrEntry rightOf (if rtlLocale then lastKey else firstKey) focused,
       Some (if rtlLocale then last else first)))
      (getKeyRightOf d)
  else if (key e =? "PageDown")%string then
    match getKeyPageBelow d, focused with
    | Some pageBelow, Some fk => Some (pageBelow fk, None)
    | _, _ => None
    end
  else if (key e =? "PageUp")%string then
    match getKeyPageAbove d, focused with
    | Some pageAbove, Some fk => Some (pageAbove fk, None)
    | _, _ => None
    end
  else None.
End Outcomes.

End SelectableCollection.

(** ** Sample data: a fruit list, its delegate and a list manager *)

Module Samples.
Import Collection SelectableCollection.

Definition apple : Item := mkItem 1 "apple" "Apple" 101 false.
Definition banana : Item := mkItem 2 "banana" "Banana" 102 false.
Definition apricot : Item := mkItem 3 "apricot" "Apricot" 103 false.
Definition otherApple : Item := mkItem 4 "apple" "Apple (green)" 104 false.

Definition fruits : Collection :=
  addItem apricot (addItem banana (addItem apple createCollection)).

(** A collator for ASCII text that ignores case. *)
Definition lower (c : ascii) : ascii :=
  let n := nat_of_ascii c in
  if (Nat.leb 65 n && Nat.leb n 90)%bool then ascii_of_nat (n + 32) else c.

Fixpoint lowercase (s : string) : string :=
  match s with
  | EmptyString => EmptyString
  | String c rest => String (lower c) (lowercase rest)
  end.

Definition asciiStartsWith (_ : unit) (text : string) (flt : option string)
    : bool :=
  match flt with
  | Some f => String.prefix (lowercase f) (lowercase text)
  | None => false
  end.

(** A vertical list delegate over a list of keys. *)
Fixpoint keyAfter (keys : list ItemKey) (k : ItemKey) : option ItemKey :=
  match keys with
  | a :: (b :: _) as rest => if (a =? k)%string then Some b else keyAfter rest k
  | _ => None
  end.

Definition keyBefore (keys : list ItemKey) (k : ItemKey) : option ItemKey :=
  keyAfter (rev keys) k.

Definition listDelegate (keys : list ItemKey) : KeyboardDelegate :=
  {| getKeyBelow := Some (keyAfter keys);
     getKeyAbove := Some (keyBefore keys);
     getKeyLeftOf := None;
     getKeyRightOf := None;
     getKeyPageBelow := None;
     getKeyPageAbove := None;
     getFirstKey := Some (fun _ _ => hd_error keys);
     getLastKey := Some (fun _ _ => hd_error (rev keys)) |}.

Definition fruitKeys : list ItemKey := Collection.keys fruits.

Definition listProps (wrap : option bool) : CreateSelectableCollectionProps :=
  {| keyboardDelegate := listDelegate fruitKeys;
     shouldFocusWrap := wrap;
     disallowEmptySelection := Some true;
     disallowSelectAll := None;
     selectOnFocus := None;
     disallowTypeAhead := None;
     shouldUseVirtualFocus := None;
     allowsTabNavigation := None;
     isVirtualized := None |}.

(** Elements are numbered so that the descendants of [r] are the
    hundred numbers from [r] on. *)
Definition sampleHost : Host :=
  {| isCtrlKeyPressed := ctrlKey;
     isNonContiguousSelectionModifier := ctrlKey;
     direction := ltr;
     contains := fun r t => (Nat.leb r t && Nat.ltb t (r + 100))%bool;
     lastChildren := fun _ => [] |}.

Definition listbox : Element := 100%nat.

Definition keydown (k : string) (shift : bool) (onElement : Element)
    : KeyboardEvent :=
  {| key := k; altKey := false; shiftKey := shift; ctrlKey := false;
     metaKey := false; target := onElement |}.

(** Modelled from the spec: the state of a [SelectionManager] as section 3
    of the specification gives it (selection mode and behaviour, selected
    keys, focused key), with the operations as sections 3 and 4.3 name
    them: replace the selection by one key, extend it to a contiguous
    range from the anchor, select every key, clear. *)
Record ListManager : Type := mkListManager {
  lm_keys : list ItemKey;
  lm_mode : SelectionMode;
  lm_behavior : SelectionBehavior;
  lm_selected : list ItemKey;
  lm_anchor : option ItemKey;
  lm_focused : option ItemKey;
  lm_childFocus : option FocusStrategy
}.

Fixpoint upTo (stop : ItemKey) (keys : list ItemKey) : list ItemKey :=
  match keys with
  | [] => []
  | k :: rest => if (k =? stop)%string then [k] else k :: upTo stop rest
  end.

Fixpoint rangeBetween (keys : list ItemKey) (a b : ItemKey) : list ItemKey :=
  match keys with
  | [] => []
  | k :: rest =>
      if (k =? a)%string then (if (k =? b)%string then [k] else k :: upTo b rest)
      else if (k =? b)%string then k :: upTo a rest
      else rangeBetween rest a b
  end.

#[export] Instance listManager : MultipleSelectionManager ListManager := {|
  selectionMode := lm_mode;
  selectionBehavior := lm_behavior;
  selectedKeys := lm_selected;
  focusedKey := lm_focused;
  setFocusedKey := fun k cf m =>
    mkListManager (lm_keys m) (lm_mode m) (lm_behavior m) (lm_selected m)
                  (lm_anchor m) (Some k) cf;
  extendSelection := fun k m =>
    let anchor := match lm_anchor m with Some a => a | None => k end in
    mkListManager (lm_keys m) (lm_mode m) (lm_behavior m)
                  (rangeBetween (lm_keys m) anchor k)
                  (Some anchor) (lm_focused m) (lm_childFocus m);
  replaceSelection := fun k m =>
    mkListManager (lm_keys m) (lm_mode m) (lm_behavior m) [k]
                  (Some k) (lm_focused m) (lm_childFocus m);
  selectAll := fun m =>
    mkListManager (lm_keys m) (lm_mode m) (lm_behavior m) (lm_keys m)
                  (lm_anchor m) (lm_focused m) (lm_childFocus m);
  clearSelection := fun m =>
    mkListManager (lm_keys m) (lm_mode m) (lm_behavior m) []
                  None (lm_focused m) (lm_childFocus m)
|}.

Definition fruitManager (mode : SelectionMode) (focused : option ItemKey)
    : ListManager :=
  mkListManager fruitKeys mode replace
                (match focused with Some k => [k] | None => [] end)
                focused focused None.

Definition startWorld (m : ListManager) : World ListManager :=
  mkWorld m false None [].

End Samples.

(** ** Vocabulary for the outcomes of the keydown handler *)

Module KeyDownOutcomes.
Import SelectableCollection.

(** The keys that the [switch] of [onKeyDown] has a case for. *)
Definition handledKeys : list string :=
  ["ArrowDown"; "ArrowUp"; "ArrowLeft"; "ArrowRight"; "Home"; "End";
   "PageDown"; "PageUp"; "a"; "Escape"; "Tab"].

(** A delegate that implements none of the optional methods. *)
Definition noDelegate : KeyboardDelegate :=
  {| getKeyBelow := None; getKeyAbove := None;
     getKeyLeftOf := None; getKeyRightOf := None;
     getKeyPageBelow := None; getKeyPageAbove := None;
     getFirstKey := None; getLastKey := None |}.

Definition isManagerCall (ef : Effect) : bool :=
  match ef with
  | SetFocusedKey _ _ | ExtendSelection _ | ReplaceSelection _
  | SelectAll | ClearSelection => true
  | PreventDefault | Focus _ | FocusWithoutScrolling _ => false
  end.

Definition isPreventDefault (ef : Effect) : bool :=
  match ef with PreventDefault => true | _ => false end.

(** The calls that move the DOM focus: [refEl.focus()] and
    [focusWithoutScrolling(next)]. *)
Definition isDomFocusCall (ef : Effect) : bool :=
  match ef with
  | Focus _ | FocusWithoutScrolling _ => true
  | _ => false
  end.

Section Outcomes.
Context {M : Type} `{MultipleSelectionManager M}.

(** The world after a call on the DOM that is recorded as [ef]. *)
Definition emitted (ef : Effect) (w : World M) : World M :=
  mkWorld (manager w) (defaultPrevented w) (activeElement w) (trace w ++ [ef]).

(** The world after [setFocusedKey(k, childFocus)] on a prevented event. *)
Definition focusedOn (k : ItemKey) (cf : option FocusStrategy) (w : World M)
    : World M :=
  invoked (SetFocusedKey k cf) (setFocusedKey k cf) (prevented w).

(** Everything one keydown can do to the world [w]. *)
Inductive Outcome (w : World M) : World M -> Prop :=
| Untouched : Outcome w w
| OnlyPrevented : Outcome w (prevented w)
| Moved k cf : Outcome w (focusedOn k cf w)
| MovedAndExtended k cf :
    selectionMode (manager (focusedOn k cf w)) = multiple ->
    Outcome w (invoked (ExtendSelection k) (extendSelection k) (focusedOn k cf w))
| MovedAndReplaced k cf :
    Outcome w (invoked (ReplaceSelection k) (replaceSelection k) (focusedOn k cf w))
| AllSelected :
    selectionMode (manager w) = multiple ->
    Outcome w (invoked SelectAll selectAll (prevented w))
| Cleared :
    Outcome w (invoked ClearSelection clearSelection (prevented w))
| DomFocused (alt : bool) (el : Element) (scrolling : bool) :
    Outcome w (emitted (if scrolling then Focus el else FocusWithoutScrolling el)
                       (if alt then prevented w else w)).
End Outcomes.

End KeyDownOutcomes.

(** ** The focus, mouse, mount and scroll code of
       createSelectableCollection.ts *)

Module FocusHandlers.
Import SelectableCollection.

(** The focus part of [MultipleSelectionManager]. *)
Class FocusManager (M : Type) `{MultipleSelectionManager M} : Type := {
  isFocused : M -> bool;
  setFocused : bool -> M -> M;
  firstSelectedKey : M -> option ItemKey;
  lastSelectedKey : M -> option ItemKey
}.

(** What a manager owes the controller here: [setFocused] sets the
    focused flag and nothing the controller reads besides, and setting the
    focused key or replacing the selection leaves the flag alone. *)
Class FocusFlagTracking (M : Type) `{FocusManager M} : Prop := {
  isFocused_setFocused :
    forall b m, isFocused (setFocused b m) = b;
  focusedKey_setFocused :
    forall b m, focusedKey (setFocused b m) = focusedKey m;
  selectedKeys_setFocused :
    forall b m, selectedKeys (setFocused b m) = selectedKeys m;
  isFocused_setFocusedKey :
    forall k cf m, isFocused (setFocusedKey k cf m) = isFocused m;
  isFocused_replaceSelection :
    forall k m, isFocused (replaceSelection k m) = isFocused m
}.

(** The fields of a [FocusEvent] or [MouseEvent] that the handlers read;
    [relatedTarget] may be [null]. *)
Record FocusEvent : Type := mkFocusEvent {
  currentTarget : Element;
  eventTarget : Element;
  relatedTarget : option Element
}.

(** [autoFocus]: a boolean, a focus strategy, or [undefined]. *)
Inductive AutoFocus : Type :=
| AutoFocusBool (b : bool)
| AutoFocusStrategy (strategy : FocusStrategy).

(** A scroll offset, [{ top, left }]. *)
Record ScrollPos : Type := mkScrollPos { top : Z; left : Z }.

(** The DOM as these handlers query it: whether [b] follows [a] in
    document order ([a.compareDocumentPosition(b) &
    Node.DOCUMENT_POSITION_FOLLOWING]), the element that
    [scrollEl.querySelector('[data-key="k"]')] finds, and the scroll
    offset that [scrollIntoView(scrollEl, element)] leaves. *)
Record Dom : Type := mkDom {
  follows : Element -> Element -> bool;
  querySelectorKey : Element -> ItemKey -> option Element;
  scrolledIntoView : Element -> Element -> ScrollPos -> ScrollPos
}.

Inductive DomCall : Type :=
| CallFocusWithoutScrolling (el : Element)
| CallScrollIntoView (scrollEl el : Element)
| CallFocusSafely (el : Element).

(** The state these handlers act on: the manager, the event's
    [defaultPrevented] flag, the [scrollPos] variable of the closure, the
    scroll offset of the scroll element, and the calls made on the DOM. *)
Record Page (M : Type) : Type := mkPage {
  pageManager : M;
  pagePrevented : bool;
  scrollPos : ScrollPos;
  scrollOffset : ScrollPos;
  domCalls : list DomCall
}.

Arguments mkPage {M} pageManager pagePrevented scrollPos scrollOffset domCalls.
Arguments pageManager {M} p.
Arguments pagePrevented {M} p.
Arguments scrollPos {M} p.
Arguments scrollOffset {M} p.
Arguments domCalls {M} p.

Section Handlers.
Context {M : Type} `{FocusManager M}.
Variable host : Host.
Variable dom : Dom.
Variable props : CreateSelectableCollectionProps.
(** [ref()] and the optional [scrollRef] accessor with its value. *)
Variable ref : option Element.
Variable scrollRef : option (option Element).

Definition withManager (f : M -> M) (p : Page M) : Page M :=
  mkPage (f (pageManager p)) (pagePrevented p) (scrollPos p)
         (scrollOffset p) (domCalls p).

Definition withCall (c : DomCall) (p : Page M) : Page M :=
  mkPage (pageManager p) (pagePrevented p) (scrollPos p)
         (scrollOffset p) (domCalls p ++ [c]).

Definition withOffset (o : ScrollPos) (p : Page M) : Page M :=
  mkPage (pageManager p) (pagePrevented p) (scrollPos p) o (domCalls p).

(** [scrollRef ? scrollRef() : ref()] *)
Definition _scrollRef : option Element :=
  match scrollRef with
  | Some accessor => accessor
  | None => ref
  end.

(** The listener of the scroll element's [scroll] event. *)
Definition onScroll (p : Page M) : Page M :=
  match truthy (isVirtualized props), _scrollRef with
  | false, Some _ =>
      mkPage (pageManager p) (pagePrevented p) (scrollOffset p)
             (scrollOffset p) (domCalls p)
  | _, _ => p
  end.

(** [scrollIntoView(scrollEl, element)] *)
Definition scrollIntoView (scrollEl element : Element) (p : Page M) : Page M :=
  withOffset (scrolledIntoView dom scrollEl element (scrollOffset p))
             (withCall (CallScrollIntoView scrollEl element) p).

(** [access(props.selectOnFocus)], with its default. *)
Definition access_selectOnFocus (m : M) : bool :=
  match selectOnFocus props with
  | Some b => b
  | None => is_replace (selectionBehavior m)
  end.

(** The local [navigateToFirstKey] of [onFocusIn]. *)
Definition navigateToFirstKey (selectOnFocus : bool) (k : option ItemKey)
    (p : Page M) : Page M :=
  match k with
  | None => p
  | Some k =>
      let p := withManager (setFocusedKey k None) p in
      if selectOnFocus then withManager (replaceSelection k) p else p
  end.

(** [a ?? b] *)
Definition orElse (a b : option ItemKey) : option ItemKey :=
  match a with
  | Some _ => a
  | None => b
  end.

Definition onFocusIn (e : FocusEvent) (p : Page M) : Page M :=
  let delegate := keyboardDelegate props in
  let selectOnFocus := access_selectOnFocus (pageManager p) in
  if isFocused (pageManager p) then
    if negb (contains host (currentTarget e) (eventTarget e))
    then withManager (setFocused false) p
    else p
  else if negb (contains host (currentTarget e) (eventTarget e)) then p
  else
    let p := withManager (setFocused true) p in
    match focusedKey (pageManager p) with
    | None =>
        let backward :=
          match relatedTarget e with
          | Some related => follows dom (currentTarget e) related
          | None => false
          end in
        if backward then
          navigateToFirstKey selectOnFocus
            (orElse (lastSelectedKey (pageManager p))
                    (optcall (getLastKey delegate) None None)) p
        else
          navigateToFirstKey selectOnFocus
            (orElse (firstSelectedKey (pageManager p))
                    (optcall (getFirstKey delegate) None None)) p
    | Some fk =>
        if negb (truthy (isVirtualized props)) then
          match _scrollRef with
          | Some scrollEl =>
              let p := withOffset (scrollPos p) p in
              match querySelectorKey dom scrollEl fk with
              | Some element =>
                  scrollIntoView scrollEl element
                    (withCall (CallFocusWithoutScrolling element) p)
              | None => p
              end
          | None => p
          end
        else p
    end.

Definition onFocusOut (e : FocusEvent) (p : Page M) : Page M :=
  let inside :=
    match relatedTarget e with
    | Some related => contains host (currentTarget e) related
    | None => false
    end in
  if negb inside then withManager (setFocused false) p else p.

Definition onMouseDown (e : FocusEvent) (p : Page M) : Page M :=
  if contains host (currentTarget e) (eventTarget e)
  then mkPage (pageManager p) true (scrollPos p) (scrollOffset p) (domCalls p)
  else p.

(** Truthiness of [access(props.autoFocus)]: a strategy is a non-empty
    string. *)
Definition autoFocus_truthy (autoFocus : option AutoFocus) : bool :=
  match autoFocus with
  | Some (AutoFocusBool b) => b
  | Some (AutoFocusStrategy _) => true
  | None => false
  end.

(** The callback given to [onMount]; [autoFocus] is [props.autoFocus]. *)
Definition onMount (autoFocus : option AutoFocus) (p : Page M) : Page M :=
  if negb (autoFocus_truthy autoFocus) then p else
  let manager := pageManager p in
  let delegate := keyboardDelegate props in
  let focusedKey : option ItemKey := None in
  let focusedKey :=
    match autoFocus with
    | Some (AutoFocusStrategy first) => optcall (getFirstKey delegate) None None
    | _ => focusedKey
    end in
  let focusedKey :=
    match autoFocus with
    | Some (AutoFocusStrategy last) => optcall (getLastKey delegate) None None
    | _ => focusedKey
    end in
  let selectedKeys := selectedKeys manager in
  let focusedKey :=
    match selectedKeys with
    | firstSelected :: _ => Some firstSelected
    | [] => focusedKey
    end in
  let p :=
    match focusedKey with
    | Some k =>
        withManager (setFocusedKey k None) (withManager (setFocused true) p)
    | None => p
    end in
  match ref, focusedKey, truthy (shouldUseVirtualFocus props) with
  | Some refEl, None, false => withCall (CallFocusSafely refEl) p
  | _, _, _ => p
  end.

(** The effect that runs when the scroll element, [isVirtualized] or the
    focused key changes.  The focused key is tested for truthiness, which
    the empty string fails. *)
Definition scrollEffect (p : Page M) : Page M :=
  match truthy (isVirtualized props), focusedKey (pageManager p), _scrollRef with
  | false, Some fk, Some scrollEl =>
      if (fk =? "")%string then p
      else
        match querySelectorKey dom scrollEl fk with
        | Some element => scrollIntoView scrollEl element p
        | None => p
        end
  | _, _, _ => p
  end.
End Handlers.

End FocusHandlers.

(** ** unnamed/part_000: createRadio *)

Module Radio.

(** The props of [createRadio] that its accessors read. *)
Record AriaRadioProps : Type := mkRadioProps {
  value : string;
  isDisabled : option bool
}.

(** What the radio reads from the group state of its context:
    [state.isDisabled()] and [state.lastFocusedValue()]. *)
Record RadioGroupState : Type := mkRadioGroupState {
  groupIsDisabled : bool;
  lastFocusedValue : option string
}.

Definition truthy (b : option bool) : bool :=
  match b with Some true => true | _ => false end.

(** [props.isDisabled || context.state.isDisabled()] *)
Definition radioIsDisabled (props : AriaRadioProps) (state : RadioGroupState)
    : bool :=
  truthy (isDisabled props) || groupIsDisabled state.

(** [context.state.lastFocusedValue() === props.value] *)
Definition isLastFocused (props : AriaRadioProps) (state : RadioGroupState)
    : bool :=
  match lastFocusedValue state with
  | Some v => (v =? value props)%string
  | None => false
  end.

(** The [tabIndex] memo; [None] is [undefined]. *)
Definition tabIndex (props : AriaRadioProps) (state : RadioGroupState)
    : option Z :=
  if radioIsDisabled props state then None
  else
    Some (if isLastFocused props state
             || match lastFocusedValue state with None => true | Some _ => false end
          then 0 else -1).

(** Whether a radio is a tab stop ([tabIndex] is [0]). *)
Definition isTabStop (state : RadioGroupState) (props : AriaRadioProps) : bool :=
  match tabIndex props state with
  | Some z => z =? 0
  | None => false
  end.

End Radio.

(** ** unnamed/part_001: createVisuallyHidden *)

Module VisuallyHidden.

(** A CSS property value: a number, a string, or [undefined]. *)
Inductive CssValue : Type :=
| CssNumber (n : Z)
| CssString (s : string)
| CssUndefined.

(** A [JSX.CSSProperties] object: its own properties in insertion
    order, each name once. *)
Definition CSSProperties : Type := list (string * CssValue).

(** [style]: an object or a string ([None] around it is [undefined]). *)
Inductive Style : Type :=
| StyleString (s : string)
| StyleObject (o : CSSProperties).

(** [o[name]] as an own-property lookup. *)
Fixpoint getProperty (name : string) (o : CSSProperties) : option CssValue :=
  match o with
  | [] => None
  | (k, v) :: rest => if (k =? name)%string then Some v else getProperty name rest
  end.

(** [o[name] = v]: an existing property keeps its place, a new one goes
    last. *)
Fixpoint setProperty (name : string) (v : CssValue) (o : CSSProperties)
    : CSSProperties :=
  match o with
  | [] => [(name, v)]
  | (k, old) :: rest =>
      if (k =? name)%string then (k, v) :: rest
      else (k, old) :: setProperty name v rest
  end.

(** Copying the own properties of [source] onto [o], in order. *)
Definition copyProperties (source o : CSSProperties) : CSSProperties :=
  fold_left (fun acc kv => setProperty (fst kv) (snd kv) acc) source o.

(** The object literal [{ ...a, ...b }]. *)
Definition spread (a b : CSSProperties) : CSSProperties :=
  copyProperties b (copyProperties a []).

Definition visuallyHiddenStyles : CSSProperties :=
  [ ("border", CssNumber 0);
    ("clip", CssString "rect(0 0 0 0)");
    ("clip-path", CssString "inset(50%)");
    ("height", CssNumber 1);
    ("margin", CssString "0 -1px -1px 0");
    ("overflow", CssString "hidden");
    ("padding", CssNumber 0);
    ("position", CssString "absolute");
    ("width", CssNumber 1);
    ("white-space", CssString "nowrap") ].

(** The [combinedStyles] memo, from the [isFocused] signal and
    [access(props.style)]. *)
Definition combinedStyles (isFocused : bool) (style : option Style)
    : option Style :=
  if isFocused then style
  else
    match style with
    | Some (StyleObject o) => Some (StyleObject (spread visuallyHiddenStyles o))
    | _ => Some (StyleObject visuallyHiddenStyles)
    end.

End VisuallyHidden.

(** ** Sample data for the focus handlers *)

Module FocusSamples.
Import SelectableCollection FocusHandlers Samples.

(** A list manager with the focused flag. *)
Record FocusListManager : Type := mkFocusListManager {
  flm_list : ListManager;
  flm_isFocused : bool
}.

Definition onList (f : ListManager -> ListManager) (m : FocusListManager)
    : FocusListManager :=
  mkFocusListManager (f (flm_list m)) (flm_isFocused m).

#[export] Instance focusListManager
    : MultipleSelectionManager FocusListManager := {|
  selectionMode := fun m => selectionMode (flm_list m);
  selectionBehavior := fun m => selectionBehavior (flm_list m);
  selectedKeys := fun m => selectedKeys (flm_list m);
  focusedKey := fun m => focusedKey (flm_list m);
  setFocusedKey := fun k cf => onList (setFocusedKey k cf);
  extendSelection := fun k => onList (extendSelection k);
  replaceSelection := fun k => onList (replaceSelection k);
  selectAll := onList selectAll;
  clearSelection := onList clearSelection
|}.

(** The first and the last key of the collection order that is
    selected. *)
Definition firstSelectedIn (keys selected : list ItemKey) : option ItemKey :=
  find (fun k => existsb (String.eqb k) selected) keys.

#[export] Instance focusListFocus : FocusManager FocusListManager := {|
  isFocused := flm_isFocused;
  setFocused := fun b m => mkFocusListManager (flm_list m) b;
  firstSelectedKey := fun m =>
    firstSelectedIn (lm_keys (flm_list m)) (lm_selected (flm_list m));
  lastSelectedKey := fun m =>
    firstSelectedIn (rev (lm_keys (flm_list m))) (lm_selected (flm_list m))
|}.

(** Elements are numbered in document order: the elements after an
    element, its descendants among them, follow it. *)
Definition sampleDom : Dom :=
  {| follows := fun a b => Nat.ltb a b;
     querySelectorKey := fun scrollEl k =>
       if (k =? "banana")%string then Some 102%nat else None;
     scrolledIntoView := fun _ el o => mkScrollPos (Z.of_nat el) (left o) |}.

Definition blurred (selected : list ItemKey) (focused : option ItemKey)
    : FocusListManager :=
  mkFocusListManager
    (mkListManager fruitKeys multiple replace selected None focused None)
    false.

Definition startPage (m : FocusListManager) : Page FocusListManager :=
  mkPage m false (mkScrollPos 0 0) (mkScrollPos 0 0) [].

End FocusSamples.

(** ** Properties of the array primitives *)

Module JsArrayFacts.
Import JsArray.

Section Generic.
Context {A : Type}.
Implicit Types (p : A -> bool) (arr : list A).

Lemma len_nonneg arr : 0 <= len arr.
Proof. unfold len; lia. Qed.

Lemma len_app arr1 arr2 : len (arr1 ++ arr2) = len arr1 + len arr2.
Proof. unfold len; rewrite length_app; lia. Qed.

Lemma at_index_nat arr (k : nat) : at_index arr (Z.of_nat k) = nth_error arr k.
Proof.
  unfold at_index.
  destruct (Z.ltb_spec (Z.of_nat k) 0); [lia|].
  now rewrite Nat2Z.id.
Qed.

Lemma at_index_Some arr i x :
  at_index arr i = Some x -> 0 <= i < len arr.
Proof.
  unfold at_index, len.
  destruct (Z.ltb_spec i 0); [discriminate|].
  intros E.
  assert (Z.to_nat i < List.length arr)%nat
    by (apply nth_error_Some; congruence).
  lia.
Qed.

Lemma at_index_negative arr i : i < 0 -> at_index arr i = None.
Proof.
  intros Hi; unfold at_index.
  destruct (Z.ltb_spec i 0); [reflexivity|lia].
Qed.

Lemma findIndexFrom_scan p arr :
  forall i, Scan p arr i (findIndexFrom p arr i) (find p arr).
Proof.
  induction arr as [|a rest IH]; intros i; simpl.
  - constructor. intros x [].
  - destruct (p a) eqn:Pa.
    + replace i with (i + Z.of_nat 0) at 2 by lia.
      apply ScanHit; [reflexivity|assumption|intros; lia].
    + destruct (IH (i + 1)) as [Hmiss | k x Hn Hp Hbefore].
      * constructor. intros x [<-|Hin]; auto.
      * replace (i + 1 + Z.of_nat k) with (i + Z.of_nat (S k)) by lia.
        apply ScanHit; [assumption|assumption|].
        intros [|j] y Hj Hy; simpl in Hy.
        -- now inversion Hy; subst.
        -- apply (Hbefore j); [lia|assumption].
Qed.

Lemma findIndex_scan p arr : Scan p arr 0 (findIndex p arr) (find p arr).
Proof. apply findIndexFrom_scan. Qed.

Lemma at_index_findIndex p arr :
  at_index arr (findIndex p arr) = find p arr.
Proof.
  destruct (findIndex_scan p arr) as [_ | k x Hn _ _].
  - now apply at_index_negative.
  - now rewrite Z.add_0_l, at_index_nat.
Qed.

Lemma findIndex_range p arr :
  findIndex p arr = -1 \/ 0 <= findIndex p arr < len arr.
Proof.
  destruct (findIndex_scan p arr) as [_ | k x Hn _ _]; [now left|right].
  assert (k < List.length arr)%nat by (apply nth_error_Some; congruence).
  unfold len; lia.
Qed.

Lemma findIndex_absent p arr :
  (forall x, In x arr -> p x = false) -> findIndex p arr = -1.
Proof.
  intros Hnone.
  destruct (findIndex_scan p arr) as [_ | k x Hn Hp _]; [reflexivity|].
  apply nth_error_In in Hn. rewrite (Hnone _ Hn) in Hp. discriminate.
Qed.

Lemma findIndexFrom_first p pre x post i :
  p x = true -> (forall y, In y pre -> p y = false) ->
  findIndexFrom p (pre ++ x :: post) i = i + len pre.
Proof.
  intros Hx. revert i.
  induction pre as [|a pre IH]; intros i Hpre; simpl.
  - rewrite Hx. unfold len; cbn [List.length]; lia.
  - rewrite (Hpre a) by now left.
    rewrite IH by (intros y Hy; apply Hpre; now right).
    unfold len; cbn [List.length]; lia.
Qed.

Lemma find_first p pre x post :
  p x = true -> (forall y, In y pre -> p y = false) ->
  find p (pre ++ x :: post) = Some x
  /\ findIndex p (pre ++ x :: post) = len pre.
Proof.
  intros Hx Hpre. split.
  - induction pre as [|a pre IH]; simpl.
    + now rewrite Hx.
    + rewrite (Hpre a) by now left.
      apply IH. intros y Hy; apply Hpre; now right.
  - unfold findIndex. now rewrite findIndexFrom_first.
Qed.

Lemma hd_error_filter p arr : hd_error (filter p arr) = find p arr.
Proof.
  induction arr as [|a rest IH]; simpl; [reflexivity|].
  now destruct (p a).
Qed.

Lemma relIndex_range k arr : 0 <= relIndex k (len arr) <= len arr.
Proof.
  unfold relIndex. pose proof (len_nonneg arr).
  destruct (Z.ltb_spec k 0); lia.
Qed.

Lemma relIndex_in_range k arr :
  0 <= k <= len arr -> relIndex k (len arr) = k.
Proof.
  intros Hk. unfold relIndex. destruct (Z.ltb_spec k 0); lia.
Qed.

Lemma relIndex_from_end k arr :
  - len arr <= k < 0 -> relIndex k (len arr) = len arr + k.
Proof.
  intros Hk. unfold relIndex. destruct (Z.ltb_spec k 0); lia.
Qed.

Lemma slice_from_skipn arr start :
  slice_from arr start = skipn (Z.to_nat (relIndex start (len arr))) arr.
Proof.
  unfold slice_from, slice.
  pose proof (relIndex_range start arr) as Hr.
  rewrite (relIndex_in_range (len arr) arr) by (pose proof (len_nonneg arr); lia).
  apply firstn_all2. rewrite length_skipn. unfold len in *. lia.
Qed.

Lemma slice_to_firstn arr stop :
  slice arr 0 stop = firstn (Z.to_nat (relIndex stop (len arr))) arr.
Proof.
  unfold slice.
  rewrite (relIndex_in_range 0 arr) by (pose proof (len_nonneg arr); lia).
  simpl. now rewrite Z.sub_0_r.
Qed.
End Generic.

End JsArrayFacts.

(** ** Properties of the collection *)

Module CollectionFacts.
Import JsArray JsArrayFacts Collection.

Lemma same_object_true a b : same_object a b = true <-> a = b.
Proof. unfold same_object. destruct (Item_eq_dec a b); split; congruence. Qed.

Lemma same_object_refl a : same_object a a = true.
Proof. now apply same_object_true. Qed.

Lemma key_is_Some k item : key_is (Some k) item = (key item =? k)%string.
Proof. reflexivity. Qed.

Lemma nth_error_keys items i :
  nth_error (keys items) i = option_map key (nth_error items i).
Proof. apply nth_error_map. Qed.

(** The round trip holds for every key, present or not, and needs no
    uniqueness: both sides are the first item carrying the key. *)
Lemma findByIndex_findIndexByKey items k :
  findByIndex items (findIndexByKey items (Some k)) = findByKey items k.
Proof. apply at_index_findIndex. Qed.

Lemma findByKey_present items k :
  In k (keys items) ->
  exists it, findByKey items k = Some it /\ key it = k /\ In it items.
Proof.
  intros Hin. apply in_map_iff in Hin as (x & Hk & Hx).
  unfold findByKey.
  destruct (find (fun item => (key item =? k)%string) items) as [it|] eqn:F.
  - apply find_some in F as [Hi He]. apply String.eqb_eq in He. eauto.
  - apply (find_none _ _ F) in Hx. apply String.eqb_neq in Hx. congruence.
Qed.

Lemma findIndexByKey_of_index items i it :
  NoDup (keys items) ->
  findByIndex items i = Some it ->
  findIndexByKey items (Some (key it)) = i.
Proof.
  intros Hnd Hi.
  pose proof (at_index_Some _ _ _ Hi) as Hr.
  unfold findByIndex in Hi.
  rewrite <- (Z2Nat.id i) in Hi |- * by lia.
  rewrite at_index_nat in Hi.
  unfold findIndexByKey.
  destruct (findIndex_scan (key_is (Some (key it))) items)
    as [Hmiss | k x Hn Hp _].
  - apply nth_error_In in Hi. apply Hmiss in Hi.
    simpl in Hi. rewrite String.eqb_refl in Hi. discriminate.
  - simpl in Hp. apply String.eqb_eq in Hp.
    assert (k = Z.to_nat i) as ->; [|lia].
    apply (proj1 (NoDup_nth_error (keys items)) Hnd).
    + rewrite <- nth_error_Some, nth_error_keys, Hn. discriminate.
    + rewrite !nth_error_keys, Hn, Hi. simpl. now rewrite Hp.
Qed.

(** C4: with unique keys, looking up the index of a present key [k] and
    then the item at that index gives the item [findByKey] gives, which is
    an item of the collection with key [k]; going the other way, the index
    found for the key of the item at index [i] is [i]; and for an absent
    key [findIndexByKey] answers [-1] and [findByKey] answers null. *)
Theorem findIndexByKey_findByIndex_inverse (items : Collection)
    (Hunique : NoDup (keys items)) :
  (forall k, In k (keys items) ->
     findByIndex items (findIndexByKey items (Some k)) = findByKey items k
     /\ exists it, findByKey items k = Some it /\ key it = k)
  /\ (forall i it, findByIndex items i = Some it ->
        findIndexByKey items (Some (key it)) = i)
  /\ (forall k, ~ In k (keys items) ->
        findIndexByKey items (Some k) = -1 /\ findByKey items k = None).
Proof.
  split; [|split].
  - intros k Hin. split; [apply findByIndex_findIndexByKey|].
    destruct (findByKey_present items k Hin) as (it & ? & ? & _); eauto.
  - intros i it. now apply findIndexByKey_of_index.
  - intros k Hout.
    assert (Hnone : forall x, In x items -> key_is (Some k) x = false).
    { intros x Hx. simpl. apply String.eqb_neq. intros <-.
      apply Hout. now apply in_map. }
    split.
    + now apply findIndex_absent.
    + unfold findByKey.
      destruct (find _ items) as [it|] eqn:F; [|reflexivity].
      apply find_some in F as [Hi He]. rewrite <- key_is_Some in He.
      rewrite (Hnone _ Hi) in He. discriminate.
Qed.

(** C7: on the empty collection the first and last index are [-1] and no
    index is first or last; on a collection with at least one item the
    first index is [0] and the last is [length - 1]. *)
Theorem empty_collection_boundaries :
  getFirstIndex createCollection = -1
  /\ getLastIndex createCollection = -1
  /\ (forall i, isFirstIndex createCollection i = false)
  /\ (forall i, isLastIndex createCollection i = false)
  /\ (forall item rest,
        getFirstIndex (item :: rest) = 0
        /\ getLastIndex (item :: rest) = len (item :: rest) - 1).
Proof.
  repeat split; try reflexivity.
  all: unfold getFirstIndex, getLastIndex, isCollectionEmpty.
  all: destruct (Z.leb_spec (len (item :: rest)) 0) as [Hle|_]; try reflexivity.
  all: unfold len in Hle; cbn [List.length] in Hle; lia.
Qed.

(** C9: [addItem] appends whatever it is given.  When the collection
    already holds an item [x] with the key of the new item [item] (and
    [x] is the first such), the result holds both, no longer has unique
    keys, and both key lookups still answer with [x] and its index. *)
Theorem addItem_keeps_duplicate_key
    (pre post : list Item) (x item : Item)
    (Hkey : key x = key item)
    (Hfirst : forall y, In y pre -> key y <> key item) :
  let items := pre ++ x :: post in
  addItem item items = pre ++ x :: post ++ [item]
  /\ len (addItem item items) = len items + 1
  /\ findByIndex (addItem item items) (len items) = Some item
  /\ findByKey (addItem item items) (key item) = Some x
  /\ findIndexByKey (addItem item items) (Some (key item)) = len pre
  /\ findByIndex (addItem item items) (len pre) = Some x
  /\ ~ NoDup (keys (addItem item items)).
Proof.
  intros items. unfold items, addItem.
  assert (Hshape : (pre ++ x :: post) ++ [item] = pre ++ x :: post ++ [item])
    by now rewrite <- app_assoc.
  assert (Hx : key_is (Some (key item)) x = true)
    by (simpl; now apply String.eqb_eq).
  assert (Hpre : forall y, In y pre -> key_is (Some (key item)) y = false)
    by (intros y Hy; simpl; apply String.eqb_neq; now apply Hfirst).
  destruct (find_first _ pre x (post ++ [item]) Hx Hpre) as [Hfind Hidx].
  repeat split.
  - exact Hshape.
  - rewrite len_app. reflexivity.
  - unfold findByIndex, len. rewrite at_index_nat.
    rewrite nth_error_app2 by lia. now rewrite Nat.sub_diag.
  - unfold findByKey. rewrite Hshape. exact Hfind.
  - unfold findIndexByKey. rewrite Hshape. exact Hidx.
  - unfold findByIndex, len. rewrite at_index_nat, Hshape.
    rewrite nth_error_app2 by lia. now rewrite Nat.sub_diag.
  - rewrite Hshape. unfold keys. rewrite map_app. simpl.
    intros Hnd. apply NoDup_remove_2 in Hnd. apply Hnd.
    rewrite in_app_iff. right. rewrite map_app, in_app_iff. right.
    simpl. left. now symmetry.
Qed.

(** *** findIndexBySearch *)

Lemma in_wrapAroundFrom n (items : list Item) x :
  In x (wrapAroundFrom n items) <-> In x items.
Proof.
  unfold wrapAroundFrom.
  rewrite <- (firstn_skipn n items) at 3.
  rewrite !in_app_iff. tauto.
Qed.

Lemma orderedItems_wrapAround items startIndex :
  orderedItems items startIndex
  = wrapAroundFrom (Z.to_nat (relIndex startIndex (len items))) items.
Proof.
  unfold orderedItems, wrapAroundFrom.
  now rewrite slice_from_skipn, slice_to_firstn.
Qed.

(** In wrap-around order from an in-range start [s], position [j] holds
    the item of original index [(s + j) mod length]. *)
Lemma orderedItems_modular items s j :
  0 <= s <= len items -> 0 <= j < len items ->
  at_index (orderedItems items s) j = at_index items ((s + j) mod len items).
Proof.
  intros Hs Hj.
  rewrite orderedItems_wrapAround, relIndex_in_range by assumption.
  unfold wrapAroundFrom, len in *.
  rewrite <- (Z2Nat.id j) at 1 by lia. rewrite at_index_nat.
  destruct (Z.lt_ge_cases (s + j) (Z.of_nat (List.length items))) as [Hlt|Hge].
  - rewrite Z.mod_small by lia.
    rewrite nth_error_app1 by (rewrite length_skipn; lia).
    rewrite nth_error_skipn.
    rewrite <- (Z2Nat.id (s + j)) by lia. rewrite at_index_nat.
    f_equal; lia.
  - replace ((s + j) mod Z.of_nat (List.length items))
      with (s + j - Z.of_nat (List.length items))
      by (apply Z.mod_unique with (q := 1); lia).
    rewrite nth_error_app2 by (rewrite length_skipn; lia).
    rewrite length_skipn, nth_error_firstn.
    destruct (Nat.ltb_spec (Z.to_nat j - (List.length items - Z.to_nat s))
                           (Z.to_nat s)); [|lia].
    rewrite <- (Z2Nat.id (s + j - _)) by lia. rewrite at_index_nat.
    f_equal; lia.
Qed.

Lemma indexOf_original items it :
  In it items -> OriginalIndex items it (indexOf items (Some it)).
Proof.
  intros Hin. unfold indexOf, OriginalIndex, findByIndex.
  destruct (findIndex_scan (same_object it) items) as [Hmiss | k x Hn Hp Hb].
  - pose proof (same_object_refl it) as Hrefl.
    rewrite (Hmiss _ Hin) in Hrefl. discriminate.
  - apply same_object_true in Hp; subst x.
    rewrite Z.add_0_l, at_index_nat. split; [assumption|].
    intros j Hj Habs.
    rewrite <- (Z2Nat.id j) in Habs by lia. rewrite at_index_nat in Habs.
    assert (Hlt : (Z.to_nat j < k)%nat) by lia.
    specialize (Hb _ _ Hlt Habs).
    rewrite same_object_refl in Hb. discriminate.
Qed.

Lemma OriginalIndex_unique items it r r' :
  OriginalIndex items it r -> OriginalIndex items it r' -> r = r'.
Proof.
  intros [Hr Hbefore] [Hr' Hbefore'].
  pose proof (at_index_Some _ _ _ Hr). pose proof (at_index_Some _ _ _ Hr').
  destruct (Z.lt_trichotomy r r') as [Hlt|[Heq|Hgt]]; [|assumption|].
  - now destruct (Hbefore' r ltac:(lia)).
  - now destruct (Hbefore r' ltac:(lia)).
Qed.

Lemma same_letters_repeated ch s :
  forallb (fun letter => same_letter letter (Some (String ch EmptyString)))
          (split_chars s) = true
  <-> s = repeated ch (String.length s).
Proof.
  induction s as [|c rest IH]; [simpl; tauto|].
  cbn [split_chars forallb same_letter String.length repeated].
  rewrite andb_true_iff, IH. split.
  - intros [Hc Hr]. apply String.eqb_eq in Hc.
    injection Hc as ->. now f_equal.
  - intros Heq. injection Heq as -> Hrest.
    rewrite String.eqb_refl. split; [reflexivity|assumption].
Qed.

Lemma repeated_length ch n : String.length (repeated ch n) = n.
Proof. induction n; simpl; congruence. Qed.

Lemma allSameLetter_repeated flt :
  allSameLetter (split_chars flt) = true <-> exists ch n, flt = repeated ch n.
Proof.
  destruct flt as [|c rest].
  - split; [exists "a"%char, 0%nat; reflexivity | reflexivity].
  - unfold allSameLetter.
    change (hd_error (split_chars (String c rest)))
      with (Some (String c EmptyString)).
    rewrite same_letters_repeated. split.
    + intros ->. eauto.
    + intros (ch & n & Heq). rewrite Heq, repeated_length.
      destruct n; inversion Heq; subst. reflexivity.
Qed.

Section SearchFacts.
Variable Collator : Type.
Variable isStartingWith : Collator -> string -> option string -> bool.

(** C2: the search goes through the items in wrap-around order from the
    start index (resolved as [slice] resolves it).  If some item's text
    starts with the filter, the answer is the original index of the first
    such item in that order.  If none does and the filter is one character
    [ch] repeated one or more times, the answer is the original index of
    the first item, in the same order, whose text starts with the
    one-character string [ch], or [-1] when there is none (on the empty
    filter, the test is made with the [undefined] that [filter[0]] is).
    In every other case, that is when the filter is not one repeated
    character, the answer is [-1]. *)
Theorem findIndexBySearch_first_match_in_wraparound_order
    (items : Collection) (flt : string) (collator : Collator) (startIndex : Z) :
  let r := findIndexBySearch Collator isStartingWith items flt collator startIndex in
  let start := Z.to_nat (relIndex startIndex (len items)) in
  let firstMatch f :=
    find (fun item => isStartingWith collator (textValue item) f)
         (wrapAroundFrom start items) in
  let answersFirstMatch f :=
    match firstMatch f with
    | Some it => OriginalIndex items it r
    | None => r = -1
    end in
  (allSameLetter (split_chars flt) = true <-> exists ch n, flt = repeated ch n)
  /\ match firstMatch (Some flt) with
     | Some it => OriginalIndex items it r
     | None =>
         (forall ch n, flt = repeated ch (S n) ->
            answersFirstMatch (Some (String ch EmptyString)))
         /\ (flt = EmptyString -> answersFirstMatch None)
         /\ ((forall ch n, flt <> repeated ch n) -> r = -1)
     end.
Proof.
  intros r start firstMatch answersFirstMatch.
  split; [apply allSameLetter_repeated|].
  subst answersFirstMatch r. unfold findIndexBySearch, filterItems.
  rewrite !hd_error_filter, orderedItems_wrapAround.
  fold start. fold (firstMatch (Some flt)). fold (firstMatch (first_char flt)).
  assert (Hin : forall f it, firstMatch f = Some it -> In it items).
  { intros f it Hf. apply find_some in Hf as [Hf _].
    now apply in_wrapAroundFrom in Hf. }
  destruct (firstMatch (Some flt)) as [it|] eqn:F1.
  { apply indexOf_original. eauto. }
  split; [|split].
  - (* one character, repeated: the fallback tests that character *)
    intros ch n Hflt.
    assert (Hsame : allSameLetter (split_chars flt) = true)
      by (apply allSameLetter_repeated; eauto).
    assert (Hchar : first_char flt = Some (String ch EmptyString))
      by (rewrite Hflt; reflexivity).
    rewrite Hsame, Hchar.
    destruct (firstMatch (Some (String ch EmptyString))) as [it|] eqn:F2.
    + apply indexOf_original. eauto.
    + reflexivity.
  - (* the empty filter *)
    intros ->. cbn [split_chars allSameLetter forallb first_char].
    destruct (firstMatch None) as [it|] eqn:F2.
    + apply indexOf_original. eauto.
    + reflexivity.
  - (* not one repeated character *)
    intros Hmixed.
    destruct (allSameLetter (split_chars flt)) eqn:Hsame; [|reflexivity].
    apply allSameLetter_repeated in Hsame as (ch & n & Hflt).
    now destruct (Hmixed ch n).
Qed.
End SearchFacts.

(** *** The search on the fruit list (Apple, Banana, Apricot) *)

Example search_a_from_start :
  findIndexBySearch unit Samples.asciiStartsWith Samples.fruits "a" tt 0 = 0.
Proof. reflexivity. Qed.

Example search_a_after_apple :
  findIndexBySearch unit Samples.asciiStartsWith Samples.fruits "a" tt 1 = 2.
Proof. reflexivity. Qed.

Example search_aa_cycles_to_apricot :
  findIndexBySearch unit Samples.asciiStartsWith Samples.fruits "aa" tt 1 = 2.
Proof. reflexivity. Qed.

Example search_aa_wraps_to_apple :
  findIndexBySearch unit Samples.asciiStartsWith Samples.fruits "aa" tt 3 = 0.
Proof. reflexivity. Qed.

Example search_from_the_end :
  findIndexBySearch unit Samples.asciiStartsWith Samples.fruits "a" tt (-1) = 2.
Proof. reflexivity. Qed.

Example search_without_match :
  findIndexBySearch unit Samples.asciiStartsWith Samples.fruits "ab" tt 0 = -1.
Proof. reflexivity. Qed.

(** *** The theorems at work on the fruit list *)

Lemma fruit_keys_unique : NoDup (keys Samples.fruits).
Proof.
  repeat constructor; simpl; intuition discriminate.
Defined.

Lemma findIndexByKey_findByIndex_inverse_witness :
  NoDup (keys Samples.fruits)
  /\ findByIndex Samples.fruits (findIndexByKey Samples.fruits (Some "banana"))
     = findByKey Samples.fruits "banana"
  /\ findIndexByKey Samples.fruits (Some (key Samples.apricot)) = 2
  /\ findIndexByKey Samples.fruits (Some "cherry") = -1
  /\ findByKey Samples.fruits "cherry" = None.
Proof.
  destruct (findIndexByKey_findByIndex_inverse Samples.fruits fruit_keys_unique)
    as (Hpresent & Hindex & Habsent).
  split; [exact fruit_keys_unique|].
  split; [apply Hpresent; simpl; tauto|].
  split; [apply Hindex; reflexivity|].
  apply Habsent. simpl. intuition discriminate.
Defined.

Lemma addItem_keeps_duplicate_key_witness :
  key Samples.apple = key Samples.otherApple
  /\ findByKey (addItem Samples.otherApple Samples.fruits) "apple"
     = Some Samples.apple
  /\ findIndexByKey (addItem Samples.otherApple Samples.fruits) (Some "apple")
     = 0
  /\ findByIndex (addItem Samples.otherApple Samples.fruits) 3
     = Some Samples.otherApple.
Proof.
  assert (Hfirst : forall y, In y (@nil Item) -> key y <> key Samples.otherApple)
    by (intros y []).
  destruct (addItem_keeps_duplicate_key
              [] [Samples.banana; Samples.apricot]
              Samples.apple Samples.otherApple eq_refl Hfirst)
    as (_ & _ & Hnew & Hfind & Hidx & _).
  split; [reflexivity|]. split; [exact Hfind|]. split; [exact Hidx|exact Hnew].
Defined.

End CollectionFacts.

(** ** Properties of handler chaining *)

Module HandlerFacts.
Import Handler.

Section Chain.
Variables W E D : Type.
Variable defaultPrevented : E -> W -> bool.
Variable journalPrevented : E -> W * Journal E -> bool.

Lemma callHandler_undefined ev w :
  callHandler defaultPrevented (@None (EventHandlerUnion W E D)) ev w = (defaultPrevented ev w, w).
Proof. reflexivity. Qed.

Lemma invoke_probe i (h : EventHandlerUnion W E D) ev w (jr : Journal E) :
  invoke (probe i h) ev (w, jr) = (invoke h ev w, jr ++ [(i, ev)]).
Proof. destruct h; reflexivity. Qed.

Lemma chain_probes (fns : list (option (EventHandlerUnion W E D))) ev :
  forall i w jr,
    chainHandlers journalPrevented (probesFrom i fns) ev (w, jr)
    = (chainHandlers defaultPrevented fns ev w, jr ++ expectedFrom i fns ev).
Proof.
  unfold chainHandlers.
  induction fns as [|fn fns IH]; intros i w jr.
  - simpl. now rewrite app_nil_r.
  - cbn [probesFrom fold_left].
    destruct fn as [h|]; cbn [option_map expectedFrom callHandler snd].
    + rewrite invoke_probe, IH. now rewrite <- app_assoc.
    + now rewrite IH.
Qed.

Lemma in_expectedFrom (fns : list (option (EventHandlerUnion W E D))) ev :
  forall i j ev',
    In (j, ev') (expectedFrom i fns ev)
    <-> ev' = ev /\ (i <= j)%nat
        /\ exists h, nth_error fns (j - i) = Some (Some h).
Proof.
  induction fns as [|fn fns IH]; intros i j ev'.
  - simpl. split; [tauto|]. intros (_ & _ & h & Hh).
    now destruct (j - i)%nat.
  - assert (Htail :
      In (j, ev') (expectedFrom (S i) fns ev)
      <-> ev' = ev /\ (i < j)%nat
          /\ exists h, nth_error (fn :: fns) (j - i) = Some (Some h)).
    { rewrite IH. split; intros (-> & Hij & h & Hh); repeat split; try lia.
      - exists h. replace (j - i)%nat with (S (j - S i)) by lia. exact Hh.
      - exists h. replace (j - i)%nat with (S (j - S i)) in Hh by lia.
        exact Hh. }
    destruct fn as [h0|]; cbn [expectedFrom In]; rewrite Htail.
    + split.
      * intros [Heq | (-> & Hij & Hh)].
        -- injection Heq as <- <-. repeat split; [lia|].
           exists h0. now rewrite Nat.sub_diag.
        -- repeat split; [lia|assumption].
      * intros (-> & Hij & h & Hh).
        destruct (Nat.eq_dec i j) as [<-|Hne]; [now left|right].
        repeat split; [lia|eauto].
    + split.
      * intros (-> & Hij & Hh). repeat split; [lia|assumption].
      * intros (-> & Hij & h & Hh).
        destruct (Nat.eq_dec i j) as [<-|Hne].
        -- rewrite Nat.sub_diag in Hh. discriminate.
        -- repeat split; [lia|eauto].
Qed.

Lemma expectedFrom_ascending (fns : list (option (EventHandlerUnion W E D))) ev :
  forall i,
    StronglySorted lt (map fst (expectedFrom i fns ev))
    /\ Forall (fun j => (i <= j)%nat) (map fst (expectedFrom i fns ev)).
Proof.
  induction fns as [|fn fns IH]; intros i.
  - split; constructor.
  - destruct (IH (S i)) as [Hs Hf].
    assert (Hf' : Forall (fun j => (i < j)%nat)
                         (map fst (expectedFrom (S i) fns ev)))
      by (eapply Forall_impl; [|exact Hf]; simpl; intros; lia).
    destruct fn as [h|]; cbn [expectedFrom map fst]; split.
    + now constructor.
    + constructor; [lia|]. eapply Forall_impl; [|exact Hf']. simpl; intros; lia.
    + assumption.
    + eapply Forall_impl; [|exact Hf']. simpl; intros; lia.
Qed.

(** C8: the function returned by [chainHandlers] runs the supplied
    handlers over the state one after the other; observed through probes,
    the invocations are exactly the defined handlers, each once, in
    ascending argument position, each with the event the chain was applied
    to; an undefined handler leaves the state as it is. *)
Theorem chainHandlers_invokes_each_once_in_order
    (fns : list (option (EventHandlerUnion W E D))) (ev : E) (w : W) :
  let journal :=
    snd (chainHandlers journalPrevented (probesFrom 0 fns) ev (w, [])) in
  fst (chainHandlers journalPrevented (probesFrom 0 fns) ev (w, []))
    = chainHandlers defaultPrevented fns ev w
  /\ journal = expectedFrom 0 fns ev
  /\ (forall i ev', In (i, ev') journal
        <-> ev' = ev /\ exists h, nth_error fns i = Some (Some h))
  /\ StronglySorted lt (map fst journal)
  /\ (forall st, snd (callHandler defaultPrevented (@None (EventHandlerUnion W E D)) ev st) = st).
Proof.
  intros journal. subst journal. rewrite chain_probes. cbn [fst snd app].
  repeat split.
  - apply in_expectedFrom in H. tauto.
  - apply in_expectedFrom in H as (_ & _ & Hh).
    now rewrite Nat.sub_0_r in Hh.
  - intros (-> & h & Hh). apply in_expectedFrom.
    repeat split; [lia|]. exists h. now rewrite Nat.sub_0_r.
  - apply expectedFrom_ascending.
Qed.
End Chain.

End HandlerFacts.

(** ** Properties of the keydown handler and of the derived attributes *)

Module SelectableCollectionFacts.
Import SelectableCollection.

Section KeyDown.
Context {M : Type} `{MultipleSelectionManager M}.
Variable host : Host.
Variable props : CreateSelectableCollectionProps.
Variable ref : option Element.
Implicit Types (w : World M) (e : KeyboardEvent).

(** What [navigateToKey] does with a resolved key, and with none. *)
Lemma exec_navigateToKey e selectOnFocus target cf w :
  exec (navigateToKey host e selectOnFocus target cf) w =
    match target with
    | Some k =>
        let w1 := invoked (SetFocusedKey k cf) (setFocusedKey k cf) w in
        if shiftKey e && is_multiple (selectionMode (manager w1)) then
          invoked (ExtendSelection k) (extendSelection k) w1
        else if selectOnFocus
                && negb (isNonContiguousSelectionModifier host e) then
          invoked (ReplaceSelection k) (replaceSelection k) w1
        else w1
    | None => w
    end.
Proof.
  destruct target as [k|]; [|reflexivity].
  cbv [navigateToKey exec bind reads ret emit update invoked
       call_setFocusedKey call_extendSelection call_replaceSelection].
  cbn [fst snd manager defaultPrevented activeElement trace].
  destruct (shiftKey e && is_multiple _); [reflexivity|].
  destruct (selectOnFocus && _); reflexivity.
Qed.

Ltac key_cases :=
  repeat match goal with
  | |- context [String.eqb (key ?e) ?s] =>
      destruct (String.eqb_spec (key e) s)
  end.

(** On a navigation key for which the delegate has an answer, the handler
    prevents the default action and hands the answer to [navigateToKey]. *)
Lemma onKeyDown_navigation e w dest cf :
  contains_opt host ref (Some (target e)) = true ->
  delegateTarget host props e (focusedKey (manager w)) = Some (dest, cf) ->
  exec (onKeyDown host props ref e) w
  = exec (navigateToKey host e (access_selectOnFocus props (manager w))
                        dest cf) (prevented w).
Proof.
  intros Hin. unfold delegateTarget, onKeyDown.
  destruct (String.eqb_spec (key e) "Tab") as [Htab|_].
  { rewrite Htab. cbn. discriminate. }
  rewrite andb_false_r.
  cbv [when exec bind ret reads]. rewrite Hin. cbn [negb fst snd].
  key_cases.
  all: try discriminate.
  all: try (exfalso; congruence).
  all: destruct (focusedKey (manager w)) as [fk|].
  all: repeat match goal with
       | |- context [option_map _ ?c] => destruct c; cbn [option_map]
       | |- context [match ?c with Some _ => _ | None => _ end = Some _] =>
           destruct c
       end.
  all: intros Heq; try discriminate Heq; injection Heq as <- <-.
  all: cbv [orWrap neighbourOrEntry preventDefault prevented].
  all: repeat match goal with
       | |- context [match ?c with Some _ => _ | None => _ end] => destruct c
       | |- context [if ?c then _ else _] => destruct c
       end.
  all: reflexivity.
Qed.
Lemma navigateToKey_focuses (Hlaws : FocusTracking M) e selectOnFocus k cf w :
  focusedKey (manager (exec (navigateToKey host e selectOnFocus (Some k) cf) w))
  = Some k.
Proof.
  rewrite exec_navigateToKey. cbn zeta.
  destruct (shiftKey e && is_multiple _);
    [|destruct (selectOnFocus && _)];
    cbn [invoked manager];
    rewrite ?focusedKey_extendSelection, ?focusedKey_replaceSelection;
    apply focusedKey_setFocusedKey.
Qed.

Lemma navigateToKey_calls_setFocusedKey e selectOnFocus k cf w :
  In (SetFocusedKey k cf)
     (trace (exec (navigateToKey host e selectOnFocus (Some k) cf) w)).
Proof.
  rewrite exec_navigateToKey. cbn zeta.
  destruct (shiftKey e && is_multiple _);
    [|destruct (selectOnFocus && _)];
    cbn [invoked trace]; rewrite !in_app_iff; simpl; tauto.
Qed.

(** C1: on a navigation keydown inside the collection for which the
    delegate resolves a key [k], the handler prevents the default action
    and sets the manager's focused key to [k]; then, with Shift held in
    multiple selection mode, it extends the selection to [k]; otherwise,
    with select-on-focus enabled and no non-contiguous-selection modifier
    held, it replaces the selection by [k]; otherwise it does nothing
    more.  In each case the focused key ends up being [k].  When the
    delegate resolves no key, preventing the default action is all that
    happens: the manager receives no call. *)
Theorem navigateToKey_focus_then_selection_policy
    (Hlaws : FocusTracking M) e w dest cf
    (Hin : contains_opt host ref (Some (target e)) = true)
    (Hres : delegateTarget host props e (focusedKey (manager w))
            = Some (dest, cf)) :
  let after := exec (onKeyDown host props ref e) w in
  match dest with
  | Some k =>
      let focusedOn :=
        invoked (SetFocusedKey k cf) (setFocusedKey k cf) (prevented w) in
      after =
        (if shiftKey e && is_multiple (selectionMode (manager w)) then
           invoked (ExtendSelection k) (extendSelection k) focusedOn
         else if access_selectOnFocus props (manager w)
                 && negb (isNonContiguousSelectionModifier host e) then
           invoked (ReplaceSelection k) (replaceSelection k) focusedOn
         else focusedOn)
      /\ focusedKey (manager after) = Some k
  | None => after = prevented w
  end.
Proof.
  intros after. subst after.
  rewrite (onKeyDown_navigation e w dest cf Hin Hres).
  destruct dest as [k|]; [|apply exec_navigateToKey].
  split; [|now apply navigateToKey_focuses].
  rewrite exec_navigateToKey. cbn zeta. cbn [invoked prevented manager].
  now rewrite selectionMode_setFocusedKey.
Qed.

(** C3: the focused key [edge] has no neighbour in the direction of the
    arrow key pressed ([getKeyBelow] for ArrowDown, [getKeyAbove] for
    ArrowUp).  With [shouldFocusWrap] set, the focused key becomes the key
    that the delegate gives for the opposite end ([getFirstKey] for
    ArrowDown, [getLastKey] for ArrowUp), if it gives one; with wrapping
    off or unset, or no such key, the manager is left as it was, so the
    focused key is still [edge]. *)
Theorem arrow_key_wraps_at_the_boundary
    (Hlaws : FocusTracking M) e w (down : bool)
    (neighbour : ItemKey -> option ItemKey) (edge : ItemKey)
    (Hin : contains_opt host ref (Some (target e)) = true)
    (Hkey : key e = if down then "ArrowDown" else "ArrowUp")
    (Hcap : (if down then getKeyBelow (keyboardDelegate props)
             else getKeyAbove (keyboardDelegate props)) = Some neighbour)
    (Hfocus : focusedKey (manager w) = Some edge)
    (Hedge : neighbour edge = None) :
  let after := exec (onKeyDown host props ref e) w in
  let oppositeEnd :=
    optcall (if down then getFirstKey (keyboardDelegate props)
             else getLastKey (keyboardDelegate props)) (Some edge) None in
  match (if truthy (shouldFocusWrap props) then oppositeEnd else None) with
  | Some k =>
      focusedKey (manager after) = Some k
      /\ In (SetFocusedKey k None) (trace after)
  | None =>
      manager after = manager w
      /\ focusedKey (manager after) = Some edge
      /\ trace after = trace w ++ [PreventDefault]
  end.
Proof.
  intros after oppositeEnd.
  assert (Hres : delegateTarget host props e (focusedKey (manager w))
                 = Some (if truthy (shouldFocusWrap props)
                         then oppositeEnd else None, None)).
  { unfold delegateTarget. rewrite Hkey, Hfocus. subst oppositeEnd.
    destruct down; cbn [String.eqb Ascii.eqb Bool.eqb andb]; cbn match.
    all: rewrite Hcap; cbn [option_map orWrap neighbourOrEntry].
    all: rewrite Hedge; reflexivity. }
  subst after. rewrite (onKeyDown_navigation e w _ _ Hin Hres).
  destruct (if truthy (shouldFocusWrap props) then oppositeEnd else None)
    as [k|].
  - split; [now apply navigateToKey_focuses
           |apply navigateToKey_calls_setFocusedKey].
  - rewrite exec_navigateToKey. cbn [prevented manager trace]. auto.
Qed.

(** C5: inside the collection, Escape prevents the default action and
    calls [clearSelection] unless [disallowEmptySelection] is set, in which
    case the manager is left as it was; Ctrl+a calls [selectAll] (after
    preventing the default action) when the selection mode is multiple and
    [disallowSelectAll] is not [true], and otherwise changes nothing at
    all.  The handler always returns. *)
Theorem disallowed_selection_operations_are_suppressed e w
    (Hin : contains_opt host ref (Some (target e)) = true)
    (Hkey : key e = "Escape"
            \/ (key e = "a" /\ isCtrlKeyPressed host e = true)) :
  exec (onKeyDown host props ref e) w =
    if (key e =? "Escape")%string then
      if truthy (disallowEmptySelection props) then prevented w
      else invoked ClearSelection clearSelection (prevented w)
    else
      if is_multiple (selectionMode (manager w))
         && negb (truthy (disallowSelectAll props))
      then invoked SelectAll selectAll (prevented w)
      else w.
Proof.
  unfold onKeyDown.
  destruct (String.eqb_spec (key e) "Tab") as [Htab|_].
  { exfalso. destruct Hkey as [Hk|[Hk _]]; congruence. }
  rewrite andb_false_r.
  cbv [when exec bind ret reads]. rewrite Hin. cbn [negb fst snd].
  key_cases.
  all: destruct Hkey as [Hk|[Hk Hctrl]]; try (exfalso; congruence).
  - rewrite Hctrl. cbn [andb].
    destruct (is_multiple _ && negb _); reflexivity.
  - destruct (truthy (disallowEmptySelection props)); reflexivity.
Qed.

(** C6: the derived [tabIndex] is absent when virtual focus is used,
    whatever is focused; otherwise it is [0] when the manager has no
    focused key and [-1] when it has one. *)
Theorem tabIndex_follows_focus (m : M) :
  tabIndex props m =
    match shouldUseVirtualFocus props, focusedKey m with
    | Some true, _ => None
    | _, None => Some 0
    | _, Some _ => Some (-1)
    end.
Proof.
  unfold tabIndex, truthy.
  destruct (shouldUseVirtualFocus props) as [[|]|];
    destruct (focusedKey m); reflexivity.
Qed.

(** C10: for a keydown whose target is not inside the collection element
    (or when the element is not mounted), the only thing the handler may
    do is prevent the default action, and it does so exactly when the key
    is Tab with Alt held; every other such event leaves the world as it
    was. *)
Theorem outside_events_only_suppress_alt_tab e w
    (Hout : contains_opt host ref (Some (target e)) = false) :
  exec (onKeyDown host props ref e) w =
    if altKey e && (key e =? "Tab")%string then prevented w else w.
Proof.
  unfold onKeyDown. cbv [when exec bind ret]. rewrite Hout.
  destruct (altKey e && (key e =? "Tab")%string); reflexivity.
Qed.
End KeyDown.

(** *** The theorems at work on the fruit list *)

Import Samples.

Lemma listManager_tracks_focus : FocusTracking ListManager.
Proof. constructor; reflexivity. Qed.

Lemma navigateToKey_focus_then_selection_policy_witness :
  let w := startWorld (fruitManager multiple (Some "apple")) in
  let e := keydown "ArrowDown" true 101%nat in
  let after := exec (onKeyDown sampleHost (listProps None) (Some listbox) e) w in
  contains_opt sampleHost (Some listbox) (Some (target e)) = true
  /\ delegateTarget sampleHost (listProps None) e (focusedKey (manager w))
     = Some (Some "banana", None)
  /\ focusedKey (manager after) = Some "banana"
  /\ selectedKeys (manager after) = ["apple"; "banana"]
  /\ trace after
     = [PreventDefault; SetFocusedKey "banana" None; ExtendSelection "banana"].
Proof.
  intros w e after.
  split; [reflexivity|]. split; [reflexivity|].
  destruct (navigateToKey_focus_then_selection_policy
              sampleHost (listProps None) (Some listbox)
              listManager_tracks_focus e w (Some "banana") None
              eq_refl eq_refl) as [Hafter Hfocus].
  split; [exact Hfocus|].
  fold after in Hafter. rewrite Hafter. split; reflexivity.
Defined.

Lemma arrow_key_wraps_at_the_boundary_witness :
  let w := startWorld (fruitManager single (Some "apricot")) in
  let e := keydown "ArrowDown" false 101%nat in
  contains_opt sampleHost (Some listbox) (Some (target e)) = true
  /\ keyAfter fruitKeys "apricot" = None
  /\ focusedKey
       (manager (exec (onKeyDown sampleHost (listProps (Some true))
                                 (Some listbox) e) w))
     = Some "apple"
  /\ focusedKey
       (manager (exec (onKeyDown sampleHost (listProps None)
                                 (Some listbox) e) w))
     = Some "apricot".
Proof.
  intros w e.
  split; [reflexivity|]. split; [reflexivity|]. split.
  - apply (arrow_key_wraps_at_the_boundary
             sampleHost (listProps (Some true)) (Some listbox)
             listManager_tracks_focus e w true (keyAfter fruitKeys) "apricot"
             eq_refl eq_refl eq_refl eq_refl eq_refl).
  - apply (arrow_key_wraps_at_the_boundary
             sampleHost (listProps None) (Some listbox)
             listManager_tracks_focus e w true (keyAfter fruitKeys) "apricot"
             eq_refl eq_refl eq_refl eq_refl eq_refl).
Defined.

Lemma disallowed_selection_operations_are_suppressed_witness :
  let w := startWorld (fruitManager single (Some "banana")) in
  let e := keydown "Escape" false 101%nat in
  contains_opt sampleHost (Some listbox) (Some (target e)) = true
  /\ key e = "Escape"
  /\ exec (onKeyDown sampleHost (listProps None) (Some listbox) e) w
     = prevented w.
Proof.
  intros w e.
  split; [reflexivity|]. split; [reflexivity|].
  apply (disallowed_selection_operations_are_suppressed
           sampleHost (listProps None) (Some listbox) e w
           eq_refl (or_introl eq_refl)).
Defined.

Lemma outside_events_only_suppress_alt_tab_witness :
  let w := startWorld (fruitManager single (Some "banana")) in
  let e := mkKeyboardEvent "Tab" true false false false 999%nat in
  contains_opt sampleHost (Some listbox) (Some (target e)) = false
  /\ exec (onKeyDown sampleHost (listProps None) (Some listbox) e) w
     = prevented w.
Proof.
  intros w e.
  split; [reflexivity|].
  apply (outside_events_only_suppress_alt_tab
           sampleHost (listProps None) (Some listbox) e w eq_refl).
Defined.

End SelectableCollectionFacts.

(** ** Further properties of the collection: removal, insertion, bounds *)

Module CollectionLaws.
Import JsArray JsArrayFacts Collection CollectionFacts.

Lemma find_filter_implied (p q : Item -> bool) (items : list Item) :
  (forall x, p x = true -> q x = true) ->
  find p (filter q items) = find p items.
Proof.
  intros Himp. induction items as [|a rest IH]; [reflexivity|].
  simpl. destruct (q a) eqn:Qa; simpl; destruct (p a) eqn:Pa; auto.
  apply Himp in Pa. congruence.
Qed.

Lemma filter_all (q : Item -> bool) (items : list Item) :
  (forall x, In x items -> q x = true) -> filter q items = items.
Proof.
  induction items as [|a rest IH]; intros Hall; [reflexivity|].
  simpl. rewrite (Hall a) by now left.
  f_equal. apply IH. intros x Hx. apply Hall. now right.
Qed.

Lemma in_keys_removeItem k k' items :
  In k' (keys (removeItem k items)) <-> In k' (keys items) /\ k' <> k.
Proof.
  unfold keys, removeItem. rewrite !in_map_iff. split.
  - intros (x & <- & Hx). apply filter_In in Hx as [Hx Hk].
    apply negb_true_iff, String.eqb_neq in Hk. eauto.
  - intros ((x & <- & Hx) & Hne). exists x. split; [reflexivity|].
    apply filter_In. split; [assumption|].
    now apply negb_true_iff, String.eqb_neq.
Qed.

Lemma find_app_found (p : Item -> bool) (l1 l2 : list Item) x :
  find p l1 = Some x -> find p (l1 ++ l2) = Some x.
Proof.
  induction l1 as [|a l1 IH]; [discriminate|].
  simpl. destruct (p a); auto.
Qed.

Lemma find_app_missing (p : Item -> bool) (l1 l2 : list Item) :
  find p l1 = None -> find p (l1 ++ l2) = find p l2.
Proof.
  induction l1 as [|a l1 IH]; [reflexivity|].
  simpl. destruct (p a); [discriminate|auto].
Qed.

Lemma findIndexFrom_app_missing (p : Item -> bool) (l1 l2 : list Item) i :
  (forall x, In x l1 -> p x = false) ->
  findIndexFrom p (l1 ++ l2) i = findIndexFrom p l2 (i + len l1).
Proof.
  revert i. induction l1 as [|a l1 IH]; intros i Hnone; simpl.
  - unfold len; simpl. f_equal; lia.
  - rewrite (Hnone a) by now left.
    rewrite IH by (intros x Hx; apply Hnone; now right).
    f_equal. unfold len; cbn [List.length]; lia.
Qed.

Lemma findIndexFrom_app_found (p : Item -> bool) (l1 l2 : list Item) i x :
  In x l1 -> p x = true ->
  findIndexFrom p (l1 ++ l2) i = findIndexFrom p l1 i.
Proof.
  revert i. induction l1 as [|a l1 IH]; intros i Hin Hp; [destruct Hin|].
  simpl. destruct (p a) eqn:Pa; [reflexivity|].
  apply IH; [|assumption]. destruct Hin as [->|]; [congruence|assumption].
Qed.

(** X1: after [removeItem(k)] no item has the key [k] any more (every
    item carrying it is dropped, not just the first), both lookups answer
    with their sentinel, and the lookup of any other key is as before. *)
Theorem removeItem_forgets_the_key (items : Collection) (k : string) :
  ~ In k (keys (removeItem k items))
  /\ findByKey (removeItem k items) k = None
  /\ findIndexByKey (removeItem k items) (Some k) = -1
  /\ (forall k', k' <> k ->
        findByKey (removeItem k items) k' = findByKey items k').
Proof.
  assert (Hgone : ~ In k (keys (removeItem k items)))
    by (rewrite in_keys_removeItem; tauto).
  assert (Hnone : forall x, In x (removeItem k items) ->
                            key_is (Some k) x = false).
  { intros x Hx. simpl. apply String.eqb_neq. intros <-.
    apply Hgone. now apply in_map. }
  repeat split.
  - exact Hgone.
  - unfold findByKey.
    destruct (find _ (removeItem k items)) as [it|] eqn:F; [|reflexivity].
    apply find_some in F as [Hi He]. rewrite <- key_is_Some in He.
    rewrite (Hnone _ Hi) in He. discriminate.
  - now apply findIndex_absent.
  - intros k' Hne. unfold findByKey, removeItem.
    apply find_filter_implied. intros x Hx.
    apply String.eqb_eq in Hx. apply negb_true_iff, String.eqb_neq. congruence.
Qed.

(** X2: removing a key that no item carries leaves the collection as it
    is. *)
Theorem removeItem_of_absent_key_changes_nothing
    (items : Collection) (k : string)
    (Habsent : ~ In k (keys items)) :
  removeItem k items = items.
Proof.
  unfold removeItem. apply filter_all. intros x Hx.
  apply negb_true_iff, String.eqb_neq. intros <-.
  apply Habsent. now apply in_map.
Qed.

Lemma removeItem_of_absent_key_changes_nothing_witness :
  ~ In "cherry" (keys Samples.fruits)
  /\ removeItem "cherry" Samples.fruits = Samples.fruits.
Proof.
  assert (Habsent : ~ In "cherry" (keys Samples.fruits))
    by (simpl; intuition discriminate).
  split; [exact Habsent|].
  apply (removeItem_of_absent_key_changes_nothing _ _ Habsent).
Defined.

(** X3: adding an item whose key is new keeps the keys unique, puts the
    item at the end (index [length]), makes both lookups find it there,
    and leaves every earlier index and every other key's lookup as they
    were. *)
Theorem addItem_with_fresh_key (items : Collection) (item : Item)
    (Hunique : NoDup (keys items))
    (Hfresh : ~ In (key item) (keys items)) :
  NoDup (keys (addItem item items))
  /\ len (addItem item items) = len items + 1
  /\ findByKey (addItem item items) (key item) = Some item
  /\ findIndexByKey (addItem item items) (Some (key item)) = len items
  /\ findByIndex (addItem item items) (len items) = Some item
  /\ (forall i, i < len items ->
        findByIndex (addItem item items) i = findByIndex items i)
  /\ (forall k, k <> key item ->
        findByKey (addItem item items) k = findByKey items k
        /\ findIndexByKey (addItem item items) (Some k)
           = findIndexByKey items (Some k)).
Proof.
  unfold addItem.
  assert (Hnone : forall x, In x items -> key_is (Some (key item)) x = false).
  { intros x Hx. simpl. apply String.eqb_neq. intros He.
    apply Hfresh. rewrite <- He. now apply in_map. }
  assert (Hself : key_is (Some (key item)) item = true)
    by (simpl; apply String.eqb_refl).
  destruct (find_first _ items item [] Hself Hnone) as [Hfind Hidx].
  repeat split.
  - unfold keys. rewrite map_app. simpl.
    apply NoDup_app; [assumption|repeat constructor; intros []|].
    intros k Hk [<-|[]]. contradiction.
  - rewrite len_app. reflexivity.
  - exact Hfind.
  - exact Hidx.
  - unfold findByIndex, len. rewrite at_index_nat.
    rewrite nth_error_app2 by lia. now rewrite Nat.sub_diag.
  - intros i Hi. unfold findByIndex, at_index.
    destruct (Z.ltb_spec i 0); [reflexivity|].
    apply nth_error_app1. unfold len in Hi. lia.
  - unfold findByKey.
    destruct (find (fun it => (key it =? k)%string) items) as [x|] eqn:F.
    + now apply find_app_found.
    + rewrite find_app_missing by assumption. simpl.
      destruct (String.eqb_spec (key item) k); [congruence|reflexivity].
  - unfold findIndexByKey, findIndex.
    destruct (find (key_is (Some k)) items) as [x|] eqn:F.
    + apply find_some in F as [Hx Hp].
      now apply findIndexFrom_app_found with (x := x).
    + rewrite findIndexFrom_app_missing
        by (intros x Hx; apply (find_none _ _ F x Hx)).
      pose proof (findIndex_absent (key_is (Some k)) items
                    (fun x Hx => find_none _ _ F x Hx)) as Habs.
      unfold findIndex in Habs. rewrite Habs.
      simpl. destruct (String.eqb_spec (key item) k); [congruence|reflexivity].
Qed.

Lemma addItem_with_fresh_key_witness :
  NoDup (keys Samples.fruits)
  /\ ~ In "cherry" (keys Samples.fruits)
  /\ findIndexByKey (addItem (mkItem 5 "cherry" "Cherry" 105 false) Samples.fruits)
                    (Some "cherry") = 3
  /\ findByKey (addItem (mkItem 5 "cherry" "Cherry" 105 false) Samples.fruits)
               "banana" = Some Samples.banana.
Proof.
  assert (Hfresh : ~ In (key (mkItem 5 "cherry" "Cherry" 105 false))
                        (keys Samples.fruits))
    by (simpl; intuition discriminate).
  destruct (addItem_with_fresh_key Samples.fruits
              (mkItem 5 "cherry" "Cherry" 105 false)
              fruit_keys_unique Hfresh)
    as (_ & _ & _ & Hidx & _ & _ & Hother).
  split; [exact fruit_keys_unique|]. split; [exact Hfresh|].
  split; [exact Hidx|].
  destruct (Hother "banana") as [Hfind _]; [discriminate|].
  rewrite Hfind. reflexivity.
Defined.

(** X4: removing the key of an item just added under a new key gives the
    collection back. *)
Theorem removeItem_undoes_addItem (items : Collection) (item : Item)
    (Hfresh : ~ In (key item) (keys items)) :
  removeItem (key item) (addItem item items) = items.
Proof.
  unfold removeItem, addItem. rewrite filter_app. simpl.
  rewrite String.eqb_refl. simpl. rewrite app_nil_r.
  apply filter_all. intros x Hx.
  apply negb_true_iff, String.eqb_neq. intros He.
  apply Hfresh. rewrite <- He. now apply in_map.
Qed.

Lemma removeItem_undoes_addItem_witness :
  ~ In (key Samples.apricot) (keys [Samples.apple; Samples.banana])
  /\ removeItem "apricot" Samples.fruits = [Samples.apple; Samples.banana].
Proof.
  assert (Hfresh : ~ In (key Samples.apricot)
                        (keys [Samples.apple; Samples.banana]))
    by (simpl; intuition discriminate).
  split; [exact Hfresh|].
  apply (removeItem_undoes_addItem [Samples.apple; Samples.banana]
                                   Samples.apricot Hfresh).
Defined.

Lemma NoDup_keys_removeItem k items :
  NoDup (keys items) -> NoDup (keys (removeItem k items)).
Proof.
  unfold keys, removeItem.
  induction items as [|a rest IH]; intros Hnd; [constructor|].
  inversion Hnd as [|? ? Hnotin Hrest]; subst. simpl.
  destruct (negb (key a =? k)%string); simpl; [|auto].
  constructor; [|auto].
  intros Hin. apply Hnotin.
  apply in_map_iff in Hin as (x & Hk & Hx). apply filter_In in Hx as [Hx _].
  rewrite <- Hk. now apply in_map.
Qed.

Lemma removeItem_unique_split pre x post :
  NoDup (keys (pre ++ x :: post)) ->
  removeItem (key x) (pre ++ x :: post) = pre ++ post.
Proof.
  intros Hnd. unfold removeItem. rewrite filter_app. simpl.
  rewrite String.eqb_refl. simpl.
  unfold keys in Hnd. rewrite map_app in Hnd. simpl in Hnd.
  pose proof (NoDup_remove_2 _ _ _ Hnd) as Hnotin.
  rewrite in_app_iff in Hnotin.
  f_equal; apply filter_all; intros y Hy;
    apply negb_true_iff, String.eqb_neq; intros He;
    apply Hnotin; rewrite <- He; [left|right]; now apply in_map.
Qed.

(** X5: with unique keys, removing a present key [k] found at index [j]
    shortens the collection by one, keeps the keys unique, leaves the
    items before [j] at their index and moves every later item down by
    one. *)
Theorem removeItem_closes_the_gap (items : Collection) (k : string)
    (Hunique : NoDup (keys items))
    (Hpresent : In k (keys items)) :
  let j := findIndexByKey items (Some k) in
  len (removeItem k items) = len items - 1
  /\ NoDup (keys (removeItem k items))
  /\ forall i, findByIndex (removeItem k items) i
               = if i <? j then findByIndex items i
                 else findByIndex items (i + 1).
Proof.
  intros j. subst j. unfold findIndexByKey.
  destruct (findIndex_scan (key_is (Some k)) items) as [Hmiss | n x Hn Hp _].
  { exfalso. apply in_map_iff in Hpresent as (y & Hk & Hy).
    apply Hmiss in Hy. simpl in Hy. rewrite Hk, String.eqb_refl in Hy.
    discriminate. }
  simpl in Hp. apply String.eqb_eq in Hp. subst k.
  apply nth_error_split in Hn as (pre & post & -> & Hlen).
  rewrite removeItem_unique_split by assumption.
  split; [|split].
  - rewrite !len_app. unfold len. cbn [List.length]. lia.
  - rewrite <- (removeItem_unique_split pre x post Hunique).
    now apply NoDup_keys_removeItem.
  - intros i. rewrite Z.add_0_l. unfold findByIndex, at_index.
    destruct (Z.ltb_spec i 0) as [Hneg|Hpos].
    + destruct (Z.ltb_spec i (Z.of_nat n)); [reflexivity|lia].
    + destruct (Z.ltb_spec (i + 1) 0); [lia|].
      destruct (Z.ltb_spec i (Z.of_nat n)) as [Hlt|Hge].
      * rewrite !nth_error_app1 by lia. reflexivity.
      * rewrite !nth_error_app2 by lia.
        replace (Z.to_nat (i + 1) - List.length pre)%nat
          with (S (Z.to_nat i - List.length pre)) by lia.
        reflexivity.
Qed.

Lemma removeItem_closes_the_gap_witness :
  NoDup (keys Samples.fruits)
  /\ In "banana" (keys Samples.fruits)
  /\ findByIndex (removeItem "banana" Samples.fruits) 0 = Some Samples.apple
  /\ findByIndex (removeItem "banana" Samples.fruits) 1 = Some Samples.apricot
  /\ findByIndex (removeItem "banana" Samples.fruits) 2 = None.
Proof.
  assert (Hpresent : In "banana" (keys Samples.fruits)) by (simpl; tauto).
  destruct (removeItem_closes_the_gap Samples.fruits "banana"
              fruit_keys_unique Hpresent) as (_ & _ & Hshift).
  split; [exact fruit_keys_unique|]. split; [exact Hpresent|].
  rewrite !Hshift. repeat split.
Defined.

Lemma hd_error_rev (items : list Item) :
  hd_error (rev items) = nth_error items (List.length items - 1).
Proof.
  destruct items as [|a rest] using rev_ind; [reflexivity|].
  rewrite rev_app_distr, length_app. cbn [List.length rev app hd_error].
  rewrite nth_error_app2 by lia.
  replace (List.length rest + 1 - 1 - List.length rest)%nat with 0%nat by lia.
  reflexivity.
Qed.

(** X6: [findByIndex] answers with an item exactly on the indices from
    [0] to [length - 1]; the first and last index address the first and
    the last item (and nothing on an empty collection); an index is first
    or last exactly when the collection is not empty and the index is [0],
    respectively [length - 1]. *)
Theorem boundary_indices_address_first_and_last (items : Collection) :
  (forall i, (exists it, findByIndex items i = Some it) <-> 0 <= i < len items)
  /\ findByIndex items (getFirstIndex items) = hd_error items
  /\ findByIndex items (getLastIndex items) = hd_error (rev items)
  /\ (forall i, isFirstIndex items i = true <-> items <> [] /\ i = 0)
  /\ (forall i, isLastIndex items i = true
                <-> items <> [] /\ i = len items - 1).
Proof.
  split.
  { intros i. split.
    - intros [it Hit]. now apply at_index_Some in Hit.
    - intros Hi. unfold findByIndex, at_index.
      destruct (Z.ltb_spec i 0); [lia|].
      destruct (nth_error items (Z.to_nat i)) as [it|] eqn:E; [eauto|].
      apply nth_error_None in E. unfold len in Hi. lia. }
  destruct items as [|a rest].
  { repeat split; try reflexivity; try discriminate; tauto. }
  assert (Hne : isCollectionEmpty (a :: rest) = false).
  { unfold isCollectionEmpty, len. cbn [List.length].
    destruct (Z.leb_spec (Z.of_nat (S (List.length rest))) 0); [lia|reflexivity]. }
  unfold getFirstIndex, getLastIndex, isFirstIndex, isLastIndex,
    getFirstIndex, getLastIndex.
  rewrite Hne. repeat split; try discriminate.
  - rewrite hd_error_rev. unfold findByIndex, len.
    replace (Z.of_nat (List.length (a :: rest)) - 1)
      with (Z.of_nat (List.length (a :: rest) - 1))
      by (cbn [List.length]; lia).
    apply at_index_nat.
  - now apply Z.eqb_eq.
  - intros [_ ->]. reflexivity.
  - now apply Z.eqb_eq.
  - intros [_ ->]. apply Z.eqb_refl.
Qed.

(** *** More on findIndexBySearch *)

Section SearchLaws.
Variable Collator : Type.
Variable isStartingWith : Collator -> string -> option string -> bool.

Lemma findIndexBySearch_unfold items flt collator startIndex :
  findIndexBySearch Collator isStartingWith items flt collator startIndex =
    let rotated :=
      wrapAroundFrom (Z.to_nat (relIndex startIndex (len items))) items in
    match find (fun item => isStartingWith collator (textValue item) (Some flt)) rotated with
    | Some it => indexOf items (Some it)
    | None =>
        if allSameLetter (split_chars flt)
        then indexOf items (find (fun item => isStartingWith collator (textValue item) (first_char flt)) rotated)
        else -1
    end.
Proof.
  unfold findIndexBySearch, filterItems.
  now rewrite !hd_error_filter, orderedItems_wrapAround.
Qed.

Lemma indexOf_found items rotated p it :
  (forall x, In x rotated -> In x items) ->
  find p rotated = Some it ->
  findByIndex items (indexOf items (Some it)) = Some it /\ p it = true.
Proof.
  intros Hsub F. apply find_some in F as [Hin Hp].
  split; [|assumption]. now apply indexOf_original, Hsub.
Qed.

(** X7: the answer of [findIndexBySearch] is [-1] or the index of an
    item of the collection whose text passes the prefix test, for the
    whole filter or, when the filter is one repeated character, for that
    character. *)
Theorem findIndexBySearch_answers_with_a_matching_item
    (items : Collection) (flt : string) (collator : Collator) (startIndex : Z) :
  let r := findIndexBySearch Collator isStartingWith items flt collator startIndex in
  r = -1
  \/ exists it,
       findByIndex items r = Some it
       /\ 0 <= r < len items
       /\ (isStartingWith collator (textValue it) (Some flt) = true
           \/ (allSameLetter (split_chars flt) = true
               /\ isStartingWith collator (textValue it) (first_char flt) = true)).
Proof.
  intros r. subst r. rewrite findIndexBySearch_unfold. cbn zeta.
  set (rotated := wrapAroundFrom _ items).
  assert (Hsub : forall x, In x rotated -> In x items)
    by (intros x; apply in_wrapAroundFrom).
  destruct (find (fun item => isStartingWith collator (textValue item) (Some flt)) rotated) as [it|] eqn:F1.
  - right. exists it.
    destruct (indexOf_found items rotated _ it Hsub F1) as [Hat Hp].
    pose proof (at_index_Some _ _ _ Hat). auto.
  - destruct (allSameLetter (split_chars flt)) eqn:Hsame; [|now left].
    destruct (find (fun item => isStartingWith collator (textValue item) (first_char flt)) rotated) as [it|] eqn:F2;
      [|now left].
    right. exists it.
    destruct (indexOf_found items rotated _ it Hsub F2) as [Hat Hp].
    pose proof (at_index_Some _ _ _ Hat). auto.
Qed.

(** X8: a match of the whole filter is never missed and always wins:
    when some item's text starts with the filter, the answer is the index
    of an item whose text starts with the filter, whatever the start
    index. *)
Theorem findIndexBySearch_never_misses_a_match
    (items : Collection) (flt : string) (collator : Collator) (startIndex : Z)
    (item : Item)
    (Hin : In item items)
    (Hmatch : isStartingWith collator (textValue item) (Some flt) = true) :
  let r := findIndexBySearch Collator isStartingWith items flt collator startIndex in
  0 <= r < len items
  /\ exists it,
       findByIndex items r = Some it
       /\ isStartingWith collator (textValue it) (Some flt) = true.
Proof.
  intros r. subst r. rewrite findIndexBySearch_unfold. cbn zeta.
  set (rotated := wrapAroundFrom _ items).
  assert (Hsub : forall x, In x rotated -> In x items)
    by (intros x; apply in_wrapAroundFrom).
  destruct (find (fun item => isStartingWith collator (textValue item) (Some flt)) rotated) as [it|] eqn:F1.
  - destruct (indexOf_found items rotated _ it Hsub F1) as [Hat Hp].
    pose proof (at_index_Some _ _ _ Hat). eauto.
  - exfalso. apply in_wrapAroundFrom with (n := Z.to_nat (relIndex startIndex (len items))) in Hin.
    apply (find_none _ _ F1) in Hin. congruence.
Qed.

Lemma nth_error_wrapAroundFrom (items : list Item) (n k : nat) :
  (n <= List.length items)%nat ->
  nth_error (wrapAroundFrom n items) k =
    if (k <? List.length items - n)%nat then nth_error items (n + k)
    else if (k <? List.length items)%nat
         then nth_error items (k - (List.length items - n))
         else None.
Proof.
  intros Hn. unfold wrapAroundFrom.
  destruct (Nat.ltb_spec k (List.length items - n)).
  - rewrite nth_error_app1 by (rewrite length_skipn; lia).
    apply nth_error_skipn.
  - rewrite nth_error_app2 by (rewrite length_skipn; lia).
    rewrite length_skipn, nth_error_firstn.
    destruct (Nat.ltb_spec k (List.length items));
      destruct (Nat.ltb_spec (k - (List.length items - n)) n);
      try reflexivity; lia.
Qed.

(** X9: items from the start index on are preferred, and before them the
    search wraps.  With distinct item objects and a start index [s] within
    the collection, if the item at index [i] matches the filter then the
    answer lies between [s] and [i] when [i] is at or after [s], and
    otherwise is at or after [s] or at most [i]. *)
Theorem findIndexBySearch_prefers_items_from_the_start_index
    (items : Collection) (flt : string) (collator : Collator) (s i : Z)
    (item : Item)
    (Hdistinct : NoDup items)
    (Hs : 0 <= s <= len items)
    (Hi : findByIndex items i = Some item)
    (Hmatch : isStartingWith collator (textValue item) (Some flt) = true) :
  let r := findIndexBySearch Collator isStartingWith items flt collator s in
  if s <=? i then s <= r <= i else (s <= r < len items \/ 0 <= r <= i).
Proof.
  intros r. subst r. rewrite findIndexBySearch_unfold. cbn zeta.
  rewrite relIndex_in_range by assumption.
  pose proof (at_index_Some _ _ _ Hi) as Hirange.
  unfold findByIndex in Hi.
  rewrite <- (Z2Nat.id i) in Hi by lia. rewrite at_index_nat in Hi.
  unfold len in *.
  set (n := Z.to_nat s). set (L := List.length items) in *.
  assert (Hn : (n <= L)%nat) by lia.
  set (p := fun it => isStartingWith collator (textValue it) (Some flt)).
  destruct (findIndex_scan p (wrapAroundFrom n items)) as [Hmiss | k x Hk Hp Hbefore].
  { exfalso. apply nth_error_In in Hi.
    apply (in_wrapAroundFrom n) in Hi. apply Hmiss in Hi.
    unfold p in Hi. congruence. }
  (* the original index of the first match *)
  assert (Hx : In x items)
    by (apply nth_error_In in Hk; now apply in_wrapAroundFrom in Hk).
  destruct (indexOf_original items x Hx) as [Hat _].
  pose proof (at_index_Some _ _ _ Hat) as Hrange. unfold len in Hrange.
  fold L in Hrange.
  unfold findByIndex in Hat.
  rewrite <- (Z2Nat.id (indexOf items (Some x))) in Hat by lia.
  rewrite at_index_nat in Hat.
  assert (Hpos : forall q, nth_error items q = Some x ->
                           q = Z.to_nat (indexOf items (Some x))).
  { intros q Hq. apply (proj1 (NoDup_nth_error items) Hdistinct).
    - apply nth_error_Some. congruence.
    - congruence. }
  rewrite nth_error_wrapAroundFrom in Hk by assumption. fold L in Hk.
  (* the matching item at [i] is not before the first match *)
  assert (Hfirst : forall j, nth_error (wrapAroundFrom n items) j = Some item ->
                             (k <= j)%nat).
  { intros j Hj. destruct (Nat.le_gt_cases k j) as [|Hlt]; [assumption|].
    specialize (Hbefore _ _ Hlt Hj). unfold p in Hbefore. congruence. }
  destruct (Z.leb_spec s i) as [Hle|Hgt].
  - specialize (Hfirst (Z.to_nat i - n)%nat).
    rewrite nth_error_wrapAroundFrom in Hfirst by assumption. fold L in Hfirst.
    destruct (Nat.ltb_spec (Z.to_nat i - n) (L - n)); [|lia].
    replace (n + (Z.to_nat i - n))%nat with (Z.to_nat i) in Hfirst by lia.
    specialize (Hfirst Hi).
    destruct (Nat.ltb_spec k (L - n)); [|lia].
    apply Hpos in Hk. lia.
  - specialize (Hfirst (L - n + Z.to_nat i)%nat).
    rewrite nth_error_wrapAroundFrom in Hfirst by assumption. fold L in Hfirst.
    destruct (Nat.ltb_spec (L - n + Z.to_nat i) (L - n)); [lia|].
    destruct (Nat.ltb_spec (L - n + Z.to_nat i) L); [|lia].
    replace (L - n + Z.to_nat i - (L - n))%nat with (Z.to_nat i) in Hfirst by lia.
    specialize (Hfirst Hi).
    destruct (Nat.ltb_spec k (L - n)).
    + left. apply Hpos in Hk. lia.
    + right. destruct (Nat.ltb_spec k L); [|discriminate].
      apply Hpos in Hk. lia.
Qed.
End SearchLaws.

Lemma findIndexBySearch_never_misses_a_match_witness :
  In Samples.apricot Samples.fruits
  /\ Samples.asciiStartsWith tt (textValue Samples.apricot) (Some "AP") = true
  /\ 0 <= findIndexBySearch unit Samples.asciiStartsWith Samples.fruits "AP" tt 1
          < len Samples.fruits
  /\ exists it,
       findByIndex Samples.fruits
         (findIndexBySearch unit Samples.asciiStartsWith Samples.fruits "AP" tt 1)
       = Some it
       /\ Samples.asciiStartsWith tt (textValue it) (Some "AP") = true.
Proof.
  assert (Hin : In Samples.apricot Samples.fruits) by (simpl; tauto).
  split; [exact Hin|]. split; [reflexivity|].
  exact (findIndexBySearch_never_misses_a_match
           unit Samples.asciiStartsWith Samples.fruits "AP" tt 1
           Samples.apricot Hin eq_refl).
Defined.

Lemma fruits_distinct : NoDup Samples.fruits.
Proof. repeat constructor; simpl; intuition discriminate. Defined.

Lemma findIndexBySearch_prefers_items_from_the_start_index_witness :
  NoDup Samples.fruits
  /\ 0 <= 1 <= len Samples.fruits
  /\ findByIndex Samples.fruits 0 = Some Samples.apple
  /\ Samples.asciiStartsWith tt (textValue Samples.apple) (Some "a") = true
  /\ (1 <= findIndexBySearch unit Samples.asciiStartsWith Samples.fruits "a" tt 1
          < len Samples.fruits
      \/ 0 <= findIndexBySearch unit Samples.asciiStartsWith Samples.fruits "a" tt 1
           <= 0).
Proof.
  assert (Hs : 0 <= 1 <= len Samples.fruits) by (unfold len; simpl; lia).
  split; [exact fruits_distinct|]. split; [exact Hs|].
  split; [reflexivity|]. split; [reflexivity|].
  exact (findIndexBySearch_prefers_items_from_the_start_index
           unit Samples.asciiStartsWith Samples.fruits "a" tt 1 0
           Samples.apple fruits_distinct Hs eq_refl eq_refl).
Defined.

End CollectionLaws.

(** ** Further properties of handler chaining *)

Module HandlerLaws.
Import Handler.

Section Compose.
Variables W E D : Type.
Variable defaultPrevented : E -> W -> bool.

(** X11: chains compose.  Chaining two argument lists one after the
    other is running the first chain and then the second on its result; a
    chain passed as a handler to another chain behaves as if its handlers
    had been passed in its place; undefined handlers can be dropped from
    the argument list; and the empty chain does nothing. *)
Theorem chainHandlers_compose
    (fns1 fns2 : list (option (EventHandlerUnion W E D))) (ev : E) (w : W) :
  chainHandlers defaultPrevented (fns1 ++ fns2) ev w
    = chainHandlers defaultPrevented fns2 ev
        (chainHandlers defaultPrevented fns1 ev w)
  /\ chainHandlers defaultPrevented
       (Some (@FunctionHandler W E D (chainHandlers defaultPrevented fns1))
          :: fns2)
       ev w
     = chainHandlers defaultPrevented (fns1 ++ fns2) ev w
  /\ chainHandlers defaultPrevented
       (filter (fun fn => match fn with Some _ => true | None => false end)
               fns1) ev w
     = chainHandlers defaultPrevented fns1 ev w
  /\ chainHandlers (D := D) defaultPrevented [] ev w = w.
Proof.
  unfold chainHandlers. rewrite fold_left_app. repeat split.
  revert w. induction fns1 as [|fn rest IH]; intros w; [reflexivity|].
  destruct fn as [h|]; simpl; apply IH.
Qed.
End Compose.

End HandlerLaws.

(** ** Further properties of the keydown handler *)

Module KeyDownLaws.
Import SelectableCollection KeyDownOutcomes.

Ltac split_on_key :=
  repeat (match goal with
          | |- context [String.eqb (key ?e) ?s] =>
              destruct (String.eqb_spec (key e) s)
          end;
          try (exfalso; congruence);
          cbv beta iota).

Ltac break_match :=
  repeat match goal with
  | |- context [match ?c with _ => _ end] =>
      let E := fresh "E" in destruct c eqn:E; cbv beta iota
  end.

Lemma is_multiple_true (m : SelectionMode) : is_multiple m = true -> m = multiple.
Proof. now destruct m. Qed.

Section KeyDown.
Context {M : Type} `{MultipleSelectionManager M}.
Variable host : Host.
Variable props : CreateSelectableCollectionProps.
Variable ref : option Element.
Implicit Types (w : World M) (e : KeyboardEvent).

(** One keydown does one of the things listed by [Outcome]. *)
Lemma onKeyDown_outcome e w : Outcome w (exec (onKeyDown host props ref e) w).
Proof.
  unfold onKeyDown, tabOut, navigateToKey.
  cbv [when exec bind ret reads emit update preventDefault
       call_setFocusedKey call_extendSelection call_replaceSelection
       call_selectAll call_clearSelection].
  cbv beta iota.
  destruct (altKey e); cbn [andb];
  destruct (contains_opt host ref (Some (target e))); cbn [negb];
  split_on_key.
  all: break_match.
  all: cbn [fst snd manager defaultPrevented activeElement trace].
  all: first
    [ apply Untouched | apply OnlyPrevented | apply Moved
    | apply MovedAndReplaced | apply Cleared
    | apply (DomFocused w true _ true) | apply (DomFocused w true _ false)
    | apply (DomFocused w false _ true) | apply (DomFocused w false _ false)
    | apply MovedAndExtended | apply AllSelected ].
  all: cbn [focusedOn invoked prevented manager]; apply is_multiple_true.
  all: repeat match goal with
       | Hc : (_ && _) = true |- _ =>
           apply andb_true_iff in Hc; destruct Hc
       end.
  all: assumption.
Qed.
Ltac unfold_handler :=
  unfold onKeyDown, tabOut, navigateToKey;
  cbv [when exec bind ret reads emit update preventDefault
       call_setFocusedKey call_extendSelection call_replaceSelection
       call_selectAll call_clearSelection];
  cbv beta iota.

(** X12: a key that the handler has no case for changes nothing: the
    manager is not called and the default action is not prevented, inside
    or outside the collection. *)
Theorem unhandled_keys_change_nothing e w
    (Hkey : ~ In (key e) handledKeys) :
  exec (onKeyDown host props ref e) w = w.
Proof.
  assert (Hne : forall s, In s handledKeys -> (key e =? s)%string = false).
  { intros s Hs. apply String.eqb_neq. intros Heq. apply Hkey. now rewrite Heq. }
  unfold_handler.
  rewrite !Hne by (simpl; tauto). rewrite andb_false_r.
  destruct (contains_opt host ref (Some (target e))); reflexivity.
Qed.

(** X13: with a delegate that implements none of its optional methods,
    only the keys a, Escape and Tab can have an effect: the arrow, Home,
    End and page keys change nothing and do not prevent the default
    action. *)
Theorem keys_without_delegate_support_change_nothing e w
    (Hdelegate : keyboardDelegate props = noDelegate)
    (Hkey : ~ In (key e) ["a"; "Escape"; "Tab"]) :
  exec (onKeyDown host props ref e) w = w.
Proof.
  assert (Hne : forall s, In s ["a"; "Escape"; "Tab"] ->
                          (key e =? s)%string = false).
  { intros s Hs. apply String.eqb_neq. intros Heq. apply Hkey. now rewrite Heq. }
  unfold_handler. rewrite Hdelegate.
  rewrite (Hne "a"), (Hne "Escape"), (Hne "Tab") by (simpl; tauto).
  rewrite andb_false_r.
  cbn [getKeyBelow getKeyAbove getKeyLeftOf getKeyRightOf getKeyPageBelow
       getKeyPageAbove getFirstKey getLastKey noDelegate].
  destruct (contains_opt host ref (Some (target e))); cbn [negb];
    [|reflexivity].
  split_on_key; reflexivity.
Qed.

(** X14: PageUp and PageDown do nothing while no key is focused, even
    when the delegate implements paging: the manager is not called and the
    default action is not prevented. *)
Theorem page_keys_need_a_focused_key e w
    (Hkey : key e = "PageDown" \/ key e = "PageUp")
    (Hfocus : focusedKey (manager w) = None) :
  exec (onKeyDown host props ref e) w = w.
Proof.
  unfold_handler.
  destruct Hkey as [Hk|Hk]; rewrite Hk;
    cbn [String.eqb Ascii.eqb Bool.eqb andb]; cbv beta iota;
    rewrite andb_false_r; cbv beta iota;
    destruct (contains_opt host ref (Some (target e))); cbn [negb];
    try reflexivity; rewrite Hfocus.
  - destruct (getKeyPageBelow (keyboardDelegate props)); reflexivity.
  - destruct (getKeyPageAbove (keyboardDelegate props)); reflexivity.
Qed.

(** X15: Home and End inside the collection.  When the delegate gives
    a key [k] for the boundary, the default action is prevented and the
    focused key becomes [k]; the selection is extended to [k] only with
    both Ctrl and Shift held in multiple mode; otherwise it is replaced by
    [k] whenever select-on-focus is on, whether or not a
    non-contiguous-selection modifier is held.  When the delegate gives no
    key only the default action is prevented. *)
Theorem home_and_end_jump_to_the_boundary
    (Hlaws : FocusTracking M) e w (toEnd : bool)
    (boundary : option ItemKey -> option bool -> option ItemKey)
    (Hin : contains_opt host ref (Some (target e)) = true)
    (Hkey : key e = if toEnd then "End" else "Home")
    (Hcap : (if toEnd then getLastKey (keyboardDelegate props)
             else getFirstKey (keyboardDelegate props)) = Some boundary) :
  let after := exec (onKeyDown host props ref e) w in
  match boundary (focusedKey (manager w)) (Some (isCtrlKeyPressed host e)) with
  | Some k =>
      after =
        (if isCtrlKeyPressed host e && shiftKey e
            && is_multiple (selectionMode (manager w)) then
           invoked (ExtendSelection k) (extendSelection k) (focusedOn k None w)
         else if access_selectOnFocus props (manager w) then
           invoked (ReplaceSelection k) (replaceSelection k) (focusedOn k None w)
         else focusedOn k None w)
      /\ focusedKey (manager after) = Some k
  | None => after = prevented w
  end.
Proof.
  intros after. subst after. unfold_handler.
  rewrite Hin. cbn [negb].
  destruct toEnd; rewrite Hkey;
    cbn [String.eqb Ascii.eqb Bool.eqb andb]; cbv beta iota;
    rewrite andb_false_r, Hcap; cbv beta iota.
  all: destruct (boundary _ _) as [k|]; [|reflexivity].
  all: cbn [fst snd manager defaultPrevented activeElement trace].
  all: rewrite selectionMode_setFocusedKey.
  all: destruct (isCtrlKeyPressed host e && shiftKey e && is_multiple _);
         [|destruct (access_selectOnFocus props (manager w))].
  all: cbn [fst snd manager]; split; try reflexivity.
  all: rewrite ?focusedKey_extendSelection, ?focusedKey_replaceSelection.
  all: apply focusedKey_setFocusedKey.
Qed.

(** X16: Tab never calls the manager, and prevents the default action
    only together with Alt, so that the browser's own tab order goes on
    from wherever the handler moved the focus.  With tab navigation
    allowed the handler moves nothing; with Shift inside the collection it
    focuses the collection element itself. *)
Theorem tab_moves_only_dom_focus e w (Hkey : key e = "Tab") :
  let after := exec (onKeyDown host props ref e) w in
  let start := if altKey e then prevented w else w in
  manager after = manager w
  /\ defaultPrevented after = (defaultPrevented w || altKey e)
  /\ (if truthy (allowsTabNavigation props) then after = start
      else if contains_opt host ref (Some (target e)) && shiftKey e
           then exists r, ref = Some r /\ after = emitted (Focus r) start
           else True).
Proof.
  intros after start. subst after start. unfold_handler.
  rewrite Hkey. cbn [String.eqb Ascii.eqb Bool.eqb andb]. cbv beta iota.
  rewrite andb_true_r.
  destruct (altKey e); cbv beta iota;
    cbn [fst snd manager defaultPrevented activeElement trace].
  all: destruct ref as [r|]; cbn [contains_opt andb negb].
  all: try destruct (contains host r (target e)); cbn [negb andb].
  all: destruct (truthy (allowsTabNavigation props)).
  all: try destruct (shiftKey e).
  all: repeat split; try (rewrite ?orb_true_r, ?orb_false_r; reflexivity).
  all: try (exists r; split; reflexivity).
  all: break_match; cbn [snd manager defaultPrevented];
       rewrite ?orb_true_r, ?orb_false_r; reflexivity.
Qed.

(** The calls that one keydown adds to the record move the DOM focus
    only when the key is Tab. *)
Lemma onKeyDown_new_calls e w :
  exists calls,
    trace (exec (onKeyDown host props ref e) w) = trace w ++ calls
    /\ (existsb isDomFocusCall calls = true -> key e = "Tab").
Proof.
  unfold_handler.
  destruct (altKey e); cbn [andb];
  destruct (contains_opt host ref (Some (target e))); cbn [negb];
  split_on_key.
  all: break_match.
  all: cbn [fst snd manager defaultPrevented activeElement trace].
  all: first
    [ exists []; split; [now rewrite app_nil_r|]
    | eexists; split; [rewrite <- ?app_assoc; reflexivity|] ].
  all: cbn [app existsb isDomFocusCall orb].
  all: first [ discriminate | intros _; assumption ].
Qed.

(** X17: what a keydown leaves alone.  Whatever the event, the calls
    already recorded stay; the default action is prevented exactly when it
    was before or a [preventDefault] call is among the new calls; when the
    manager is called at all, the first new call is [preventDefault], and
    with no new manager call the manager state is what it was; and the
    DOM focus is asked to move ([focus] or [focusWithoutScrolling] among
    the new calls) only when the key is Tab. *)
Theorem keydown_frame e w :
  let after := exec (onKeyDown host props ref e) w in
  exists calls,
    trace after = trace w ++ calls
    /\ defaultPrevented after
       = (defaultPrevented w || existsb isPreventDefault calls)
    /\ (if existsb isManagerCall calls
        then hd_error calls = Some PreventDefault
        else manager after = manager w)
    /\ (if existsb isDomFocusCall calls then key e = "Tab" else True).
Proof.
  intros after. subst after.
  destruct (onKeyDown_new_calls e w) as (calls' & Hcalls' & Hdom).
  assert (Hlast : forall calls,
    trace (exec (onKeyDown host props ref e) w) = trace w ++ calls ->
    if existsb isDomFocusCall calls then key e = "Tab" else True).
  { intros calls Hcalls. rewrite Hcalls' in Hcalls.
    apply app_inv_head in Hcalls. subst calls'.
    destruct (existsb isDomFocusCall calls); [now apply Hdom|exact I]. }
  revert Hlast. clear calls' Hcalls' Hdom.
  destruct (onKeyDown_outcome e w) as
    [ | | k cf | k cf Hm | k cf | Hm | | alt el scrolling ]; intros Hlast.
  - exists []. rewrite app_nil_r, orb_false_r. repeat split.
  - exists [PreventDefault]. rewrite orb_true_r. repeat split.
  - exists [PreventDefault; SetFocusedKey k cf]. rewrite orb_true_r.
    cbn [focusedOn invoked prevented trace]. rewrite <- !app_assoc.
    repeat split.
  - exists [PreventDefault; SetFocusedKey k cf; ExtendSelection k].
    rewrite orb_true_r.
    cbn [focusedOn invoked prevented trace]. rewrite <- !app_assoc.
    repeat split.
  - exists [PreventDefault; SetFocusedKey k cf; ReplaceSelection k].
    rewrite orb_true_r.
    cbn [focusedOn invoked prevented trace]. rewrite <- !app_assoc.
    repeat split.
  - exists [PreventDefault; SelectAll]. rewrite orb_true_r.
    cbn [invoked prevented trace]. rewrite <- !app_assoc. repeat split.
  - exists [PreventDefault; ClearSelection]. rewrite orb_true_r.
    cbn [invoked prevented trace]. rewrite <- !app_assoc. repeat split.
  - destruct alt, scrolling.
    + exists [PreventDefault; Focus el]. rewrite orb_true_r.
      cbn [emitted prevented trace]. rewrite <- !app_assoc.
      repeat split.
      apply (Hlast [PreventDefault; Focus el]).
      cbn [emitted prevented trace]. now rewrite <- !app_assoc.
    + exists [PreventDefault; FocusWithoutScrolling el]. rewrite orb_true_r.
      cbn [emitted prevented trace]. rewrite <- !app_assoc.
      repeat split.
      apply (Hlast [PreventDefault; FocusWithoutScrolling el]).
      cbn [emitted prevented trace]. now rewrite <- !app_assoc.
    + exists [Focus el]. rewrite orb_false_r. repeat split.
      now apply (Hlast [Focus el]).
    + exists [FocusWithoutScrolling el]. rewrite orb_false_r. repeat split.
      now apply (Hlast [FocusWithoutScrolling el]).
Qed.

(** X18: [extendSelection] and [selectAll] are called in multiple
    selection mode only: a call of either that is in the record after a
    keydown was there before, or the selection mode is multiple. *)
Theorem range_operations_need_multiple_mode
    (Hlaws : FocusTracking M) e w (ef : Effect)
    (Hrange : ef = SelectAll \/ exists k, ef = ExtendSelection k)
    (Hcalled : In ef (trace (exec (onKeyDown host props ref e) w))) :
  In ef (trace w) \/ selectionMode (manager w) = multiple.
Proof.
  revert Hcalled.
  destruct (onKeyDown_outcome e w) as
    [ | | k cf | k cf Hm | k cf | Hm | | alt el scrolling ].
  all: cbn [focusedOn invoked emitted prevented trace manager] in *.
  all: try rewrite selectionMode_setFocusedKey in Hm.
  all: try (intros _; right; exact Hm).
  all: try destruct alt; try destruct scrolling.
  all: cbn [prevented trace]; rewrite ?in_app_iff; simpl.
  all: intros Hc; left.
  all: destruct Hrange as [->|[k' ->]].
  all: repeat match goal with
       | Hd : _ \/ _ |- _ => destruct Hd
       end; try assumption; try discriminate; try contradiction.
Qed.
End KeyDown.

(** *** The theorems at work on the fruit list *)

Import Samples.

Lemma unhandled_keys_change_nothing_witness :
  let w := startWorld (fruitManager multiple (Some "apple")) in
  let e := keydown "Enter" false 101%nat in
  ~ In (key e) handledKeys
  /\ exec (onKeyDown sampleHost (listProps None) (Some listbox) e) w = w.
Proof.
  intros w e.
  assert (Hkey : ~ In (key e) handledKeys) by (simpl; intuition discriminate).
  split; [exact Hkey|].
  exact (unhandled_keys_change_nothing
           sampleHost (listProps None) (Some listbox) e w Hkey).
Defined.

Lemma keys_without_delegate_support_change_nothing_witness :
  let w := startWorld (fruitManager multiple (Some "apple")) in
  let e := keydown "ArrowDown" false 101%nat in
  let bare := mkProps noDelegate None None None None None None None None in
  keyboardDelegate bare = noDelegate
  /\ ~ In (key e) ["a"; "Escape"; "Tab"]
  /\ exec (onKeyDown sampleHost bare (Some listbox) e) w = w.
Proof.
  intros w e bare.
  assert (Hkey : ~ In (key e) ["a"; "Escape"; "Tab"])
    by (simpl; intuition discriminate).
  split; [reflexivity|]. split; [exact Hkey|].
  exact (keys_without_delegate_support_change_nothing
           sampleHost bare (Some listbox) e w eq_refl Hkey).
Defined.

Lemma page_keys_need_a_focused_key_witness :
  let w := startWorld (fruitManager multiple None) in
  let e := keydown "PageDown" false 101%nat in
  let paging :=
    mkProps (mkKeyboardDelegate None None None None
               (Some (keyAfter fruitKeys)) (Some (keyBefore fruitKeys))
               None None)
            None None None None None None None None in
  focusedKey (manager w) = None
  /\ exec (onKeyDown sampleHost paging (Some listbox) e) w = w.
Proof.
  intros w e paging.
  split; [reflexivity|].
  exact (page_keys_need_a_focused_key
           sampleHost paging (Some listbox) e w (or_introl eq_refl) eq_refl).
Defined.

Lemma home_and_end_jump_to_the_boundary_witness :
  let w := startWorld (fruitManager multiple (Some "banana")) in
  let e := mkKeyboardEvent "End" false true false false 101%nat in
  let after := exec (onKeyDown sampleHost (listProps None) (Some listbox) e) w in
  contains_opt sampleHost (Some listbox) (Some (target e)) = true
  /\ focusedKey (manager after) = Some "apricot"
  /\ selectedKeys (manager after) = ["apricot"].
Proof.
  intros w e after.
  split; [reflexivity|].
  destruct (home_and_end_jump_to_the_boundary
              sampleHost (listProps None) (Some listbox)
              SelectableCollectionFacts.listManager_tracks_focus e w true
              (fun _ _ => hd_error (rev fruitKeys))
              eq_refl eq_refl eq_refl) as [Hafter Hfocus].
  split; [exact Hfocus|].
  fold after in Hafter. rewrite Hafter. reflexivity.
Defined.

Lemma tab_moves_only_dom_focus_witness :
  let w := startWorld (fruitManager multiple (Some "banana")) in
  let e := mkKeyboardEvent "Tab" false true false false 101%nat in
  let after := exec (onKeyDown sampleHost (listProps None) (Some listbox) e) w in
  key e = "Tab"
  /\ manager after = manager w
  /\ defaultPrevented after = false
  /\ trace after = [Focus listbox].
Proof.
  intros w e after.
  destruct (tab_moves_only_dom_focus
              sampleHost (listProps None) (Some listbox) e w eq_refl)
    as (Hmanager & Hprevented & r & Hr & Hafter).
  split; [reflexivity|]. split; [exact Hmanager|]. split; [exact Hprevented|].
  fold after in Hafter. rewrite Hafter.
  injection Hr as <-. reflexivity.
Defined.

Lemma range_operations_need_multiple_mode_witness :
  let w := startWorld (fruitManager multiple (Some "apple")) in
  let e := keydown "ArrowDown" true 101%nat in
  In (ExtendSelection "banana")
     (trace (exec (onKeyDown sampleHost (listProps None) (Some listbox) e) w))
  /\ (In (ExtendSelection "banana") (trace w)
      \/ selectionMode (manager w) = multiple).
Proof.
  intros w e.
  assert (Hcalled :
    In (ExtendSelection "banana")
       (trace (exec (onKeyDown sampleHost (listProps None) (Some listbox) e) w)))
    by (simpl; tauto).
  split; [exact Hcalled|].
  exact (range_operations_need_multiple_mode
           sampleHost (listProps None) (Some listbox)
           SelectableCollectionFacts.listManager_tracks_focus e w
           (ExtendSelection "banana")
           (or_intror (ex_intro _ "banana" eq_refl)) Hcalled).
Defined.

End KeyDownLaws.

(** ** Properties of the focus handlers and of the mount callback *)

Module FocusLaws.
Import SelectableCollection FocusHandlers.

Section Focus.
Context {M : Type} `{FocusManager M}.
Variable host : Host.
Variable dom : Dom.
Variable props : CreateSelectableCollectionProps.
Variable ref : option Element.
Variable scrollRef : option (option Element).
Implicit Types (p : Page M) (e : FocusEvent).

Lemma navigateToFirstKey_manager selectOnFocus k p :
  navigateToFirstKey selectOnFocus (Some k) p
  = withManager (fun m => if selectOnFocus
                          then replaceSelection k (setFocusedKey k None m)
                          else setFocusedKey k None m) p.
Proof. unfold navigateToFirstKey. now destruct selectOnFocus. Qed.

(** X19: a focus-in never moves an existing focused key and never
    touches the selection or the event: when a key is focused already, it
    is still the focused key afterwards and the selected keys are the
    same. *)
Theorem onFocusIn_keeps_the_focused_key
    (Hflag : FocusFlagTracking M) e p (k : ItemKey)
    (Hfocus : focusedKey (pageManager p) = Some k) :
  let after := onFocusIn host dom props ref scrollRef e p in
  focusedKey (pageManager after) = Some k
  /\ selectedKeys (pageManager after) = selectedKeys (pageManager p)
  /\ pagePrevented after = pagePrevented p.
Proof.
  intros after. subst after. unfold onFocusIn.
  destruct (isFocused (pageManager p));
    destruct (contains host (currentTarget e) (eventTarget e)); cbn [negb].
  all: cbn [withManager pageManager].
  all: rewrite ?focusedKey_setFocused, ?Hfocus.
  all: repeat match goal with
       | |- context [match ?c with _ => _ end] => destruct c
       end.
  all: cbn [scrollIntoView withOffset withCall withManager
            pageManager pagePrevented].
  all: rewrite ?focusedKey_setFocused, ?selectedKeys_setFocused; auto.
Qed.

(** X20: a focus event that bubbled in from outside the collection
    element (through a portal) focuses nothing: afterwards the manager is
    not focused, the focused key and the selection are what they were, and
    the DOM and the scroll offset are untouched. *)
Theorem onFocusIn_ignores_events_from_outside
    (Hflag : FocusFlagTracking M) e p
    (Hout : contains host (currentTarget e) (eventTarget e) = false) :
  let after := onFocusIn host dom props ref scrollRef e p in
  isFocused (pageManager after) = false
  /\ focusedKey (pageManager after) = focusedKey (pageManager p)
  /\ selectedKeys (pageManager after) = selectedKeys (pageManager p)
  /\ domCalls after = domCalls p
  /\ scrollOffset after = scrollOffset p.
Proof.
  intros after. subst after. unfold onFocusIn. rewrite Hout. cbn [negb].
  destruct (isFocused (pageManager p)) eqn:Hf; cbn [withManager pageManager
    domCalls scrollOffset].
  - now rewrite isFocused_setFocused, focusedKey_setFocused,
      selectedKeys_setFocused.
  - auto.
Qed.

(** X21: the first focus-in.  On a focus event inside the collection
    while the manager is neither focused nor has a focused key, the
    manager becomes focused and the key focused is, when the element the
    focus came from follows the collection in the document, the last
    selected key or else the delegate's last key, and otherwise (also with
    no related element) the first selected key or else the delegate's
    first key; the selection is replaced by that key exactly when
    select-on-focus is on.  With no such key only the focused flag is
    set. *)
Theorem onFocusIn_enters_at_the_near_end
    (Hkeys : FocusTracking M) (Hflag : FocusFlagTracking M) e p
    (Hblurred : isFocused (pageManager p) = false)
    (Hin : contains host (currentTarget e) (eventTarget e) = true)
    (Hnone : focusedKey (pageManager p) = None) :
  let after := onFocusIn host dom props ref scrollRef e p in
  let entered := setFocused true (pageManager p) in
  let backward :=
    match relatedTarget e with
    | Some related => follows dom (currentTarget e) related
    | None => false
    end in
  let entry :=
    if backward
    then orElse (lastSelectedKey entered)
                (optcall (getLastKey (keyboardDelegate props)) None None)
    else orElse (firstSelectedKey entered)
                (optcall (getFirstKey (keyboardDelegate props)) None None) in
  isFocused (pageManager after) = true
  /\ focusedKey (pageManager after) = entry
  /\ pageManager after
     = match entry with
       | Some k =>
           if access_selectOnFocus props (pageManager p)
           then replaceSelection k (setFocusedKey k None entered)
           else setFocusedKey k None entered
       | None => entered
       end
  /\ domCalls after = domCalls p
  /\ scrollOffset after = scrollOffset p.
Proof.
  intros after entered backward entry. subst after.
  unfold onFocusIn. rewrite Hblurred, Hin. cbn [negb].
  cbn [withManager pageManager]. rewrite focusedKey_setFocused, Hnone.
  fold entered. fold backward.
  assert (Hgoal : forall k0,
    let after := navigateToFirstKey (access_selectOnFocus props (pageManager p))
                   k0 (withManager (setFocused true) p) in
    isFocused (pageManager after) = true
    /\ focusedKey (pageManager after) = k0
    /\ pageManager after
       = match k0 with
         | Some k =>
             if access_selectOnFocus props (pageManager p)
             then replaceSelection k (setFocusedKey k None entered)
             else setFocusedKey k None entered
         | None => entered
         end
    /\ domCalls after = domCalls p
    /\ scrollOffset after = scrollOffset p).
  { intros [k|]; cbn zeta.
    - rewrite navigateToFirstKey_manager.
      cbn [withManager pageManager domCalls scrollOffset]. fold entered.
      destruct (access_selectOnFocus props (pageManager p)).
      + rewrite isFocused_replaceSelection, isFocused_setFocusedKey,
          focusedKey_replaceSelection, focusedKey_setFocusedKey.
        unfold entered. rewrite isFocused_setFocused. auto.
      + rewrite isFocused_setFocusedKey, focusedKey_setFocusedKey.
        unfold entered. rewrite isFocused_setFocused. auto.
    - cbn [navigateToFirstKey withManager pageManager domCalls scrollOffset].
      fold entered. unfold entered at 1 2.
      rewrite isFocused_setFocused, focusedKey_setFocused. auto. }
  subst entry. change (withManager (setFocused true) p)
    with (mkPage (setFocused true (pageManager p)) (pagePrevented p)
                 (scrollPos p) (scrollOffset p) (domCalls p)) in Hgoal.
  destruct backward; apply Hgoal.
Qed.

(** X22: leaving and coming back.  After focus has left the collection
    (a focus-out whose related element is outside it, or absent) and a
    later focus event inside it, the manager is focused again, on the key
    that was focused before, with the selection it had. *)
Theorem focus_returns_to_the_focused_key
    (Hflag : FocusFlagTracking M) (leave enter : FocusEvent) p (k : ItemKey)
    (Hfocus : focusedKey (pageManager p) = Some k)
    (Hleave : match relatedTarget leave with
              | Some related => contains host (currentTarget leave) related
              | None => false
              end = false)
    (Henter : contains host (currentTarget enter) (eventTarget enter) = true) :
  let away := onFocusOut host leave p in
  let back := onFocusIn host dom props ref scrollRef enter away in
  isFocused (pageManager away) = false
  /\ isFocused (pageManager back) = true
  /\ focusedKey (pageManager back) = Some k
  /\ selectedKeys (pageManager back) = selectedKeys (pageManager p).
Proof.
  intros away back. subst back away.
  unfold onFocusOut. rewrite Hleave. cbn [negb].
  unfold onFocusIn. cbn [withManager pageManager].
  rewrite isFocused_setFocused, Henter. cbn [negb].
  rewrite !focusedKey_setFocused, Hfocus.
  split; [reflexivity|].
  repeat match goal with
  | |- context [match ?c with _ => _ end] => destruct c
  end.
  all: cbn [scrollIntoView withOffset withCall withManager pageManager].
  all: rewrite ?isFocused_setFocused, ?focusedKey_setFocused,
         ?selectedKeys_setFocused; auto.
Qed.

(** X23: once the manager is focused, a further focus event inside the
    collection (such as the one caused by the handler's own
    [focusWithoutScrolling] call) changes nothing, so handling the same
    focus-in twice is the same as handling it once. *)
Theorem onFocusIn_twice_is_once
    (Hflag : FocusFlagTracking M) e p
    (Hin : contains host (currentTarget e) (eventTarget e) = true) :
  onFocusIn host dom props ref scrollRef e
    (onFocusIn host dom props ref scrollRef e p)
  = onFocusIn host dom props ref scrollRef e p.
Proof.
  assert (Hfocused :
    isFocused (pageManager (onFocusIn host dom props ref scrollRef e p)) = true).
  { unfold onFocusIn. rewrite Hin. cbn [negb].
    destruct (isFocused (pageManager p)) eqn:Hf; [exact Hf|].
    cbn [withManager pageManager]. unfold navigateToFirstKey, orElse.
    repeat match goal with
    | |- context [match ?c with _ => _ end] => destruct c
    end.
    all: cbn [navigateToFirstKey scrollIntoView withOffset withCall
              withManager pageManager].
    all: repeat match goal with
         | |- context [if ?c then _ else _] => destruct c
         end.
    all: cbn [withManager pageManager].
    all: rewrite ?isFocused_replaceSelection, ?isFocused_setFocusedKey.
    all: apply isFocused_setFocused. }
  unfold onFocusIn at 1. rewrite Hfocused, Hin. reflexivity.
Qed.

(** X24: the scroll offset that a focus-in restores is the one recorded
    by the last scroll event, whatever offset the browser has jumped to in
    between: for a collection that is not virtualized, with a scroll
    element and a focused key, the offset after the focus-in is the
    recorded one, scrolled on to the focused item when its element is
    found. *)
Theorem onFocusIn_restores_the_recorded_scroll_offset
    (Hflag : FocusFlagTracking M) e p (jumped : ScrollPos)
    (scrollEl : Element) (k : ItemKey)
    (Hreal : truthy (isVirtualized props) = false)
    (Hscroll : _scrollRef ref scrollRef = Some scrollEl)
    (Hblurred : isFocused (pageManager p) = false)
    (Hin : contains host (currentTarget e) (eventTarget e) = true)
    (Hfocus : focusedKey (pageManager p) = Some k) :
  let recorded := onScroll props ref scrollRef p in
  let after :=
    onFocusIn host dom props ref scrollRef e (withOffset jumped recorded) in
  scrollPos recorded = scrollOffset p
  /\ scrollOffset after
     = match querySelectorKey dom scrollEl k with
       | Some element => scrolledIntoView dom scrollEl element (scrollOffset p)
       | None => scrollOffset p
       end
  /\ domCalls after
     = domCalls p
       ++ match querySelectorKey dom scrollEl k with
          | Some element =>
              [CallFocusWithoutScrolling element;
               CallScrollIntoView scrollEl element]
          | None => []
          end.
Proof.
  intros recorded after. subst after recorded.
  unfold onScroll. rewrite Hreal, Hscroll.
  unfold onFocusIn. cbn [withOffset withManager pageManager scrollPos].
  rewrite Hblurred, Hin. cbn [negb].
  rewrite focusedKey_setFocused, Hfocus, Hreal, Hscroll. cbn [negb].
  split; [reflexivity|].
  destruct (querySelectorKey dom scrollEl k) as [element|].
  - cbn [scrollIntoView withOffset withCall scrollOffset domCalls].
    split; [reflexivity|]. now rewrite <- app_assoc.
  - cbn [scrollOffset domCalls]. now rewrite app_nil_r.
Qed.

(** X25: what the mount callback focuses.  With [autoFocus] falsy it
    does nothing.  Otherwise the first selected key, if any key is
    selected, wins over the key of the focus strategy; the key resolved is
    made the focused key of a focused manager and the DOM is left alone;
    with no key resolved the manager is left alone and the collection
    element itself is focused, unless virtual focus is used or the element
    is not mounted. *)
Theorem onMount_focus_priority
    (autoFocus : option AutoFocus) p :
  let after := onMount props ref autoFocus p in
  let resolved :=
    match selectedKeys (pageManager p) with
    | firstSelected :: _ => Some firstSelected
    | [] =>
        match autoFocus with
        | Some (AutoFocusStrategy first) =>
            optcall (getFirstKey (keyboardDelegate props)) None None
        | Some (AutoFocusStrategy last) =>
            optcall (getLastKey (keyboardDelegate props)) None None
        | _ => None
        end
    end in
  if autoFocus_truthy autoFocus then
    match resolved with
    | Some k =>
        pageManager after
        = setFocusedKey k None (setFocused true (pageManager p))
        /\ domCalls after = domCalls p
    | None =>
        pageManager after = pageManager p
        /\ domCalls after
           = domCalls p
             ++ match ref with
                | Some refEl =>
                    if truthy (shouldUseVirtualFocus props) then []
                    else [CallFocusSafely refEl]
                | None => []
                end
    end
  else after = p.
Proof.
  intros after resolved. subst after resolved. unfold onMount.
  destruct autoFocus as [[[|]|[|]]|]; cbn [autoFocus_truthy negb];
    try reflexivity.
  all: destruct (selectedKeys (pageManager p)) as [|k0 rest].
  all: repeat match goal with
       | |- context [optcall ?f None None] =>
           destruct (optcall f None None)
       end.
  all: destruct ref as [refEl|];
       try destruct (truthy (shouldUseVirtualFocus props)).
  all: cbn [withManager withCall pageManager domCalls];
       rewrite ?app_nil_r; split; reflexivity.
Qed.
End Focus.

(** *** The theorems at work on the fruit list *)

Import Samples FocusSamples.

Lemma focusListManager_tracks_focus : FocusTracking FocusListManager.
Proof. constructor; reflexivity. Qed.

Lemma focusListManager_tracks_flag : FocusFlagTracking FocusListManager.
Proof. constructor; reflexivity. Qed.

Lemma onFocusIn_keeps_the_focused_key_witness :
  let p := startPage (blurred ["apple"] (Some "banana")) in
  let e := mkFocusEvent listbox 101%nat None in
  let after := onFocusIn sampleHost sampleDom (listProps None)
                 (Some listbox) None e p in
  focusedKey (pageManager p) = Some "banana"
  /\ focusedKey (pageManager after) = Some "banana"
  /\ selectedKeys (pageManager after) = ["apple"].
Proof.
  intros p e after.
  split; [reflexivity|].
  destruct (onFocusIn_keeps_the_focused_key
              sampleHost sampleDom (listProps None) (Some listbox) None
              focusListManager_tracks_flag e p "banana" eq_refl)
    as (Hkey & Hsel & _).
  split; [exact Hkey|exact Hsel].
Defined.

Lemma onFocusIn_ignores_events_from_outside_witness :
  let p := startPage (blurred [] None) in
  let e := mkFocusEvent listbox 999%nat None in
  let after := onFocusIn sampleHost sampleDom (listProps None)
                 (Some listbox) None e p in
  contains sampleHost (currentTarget e) (eventTarget e) = false
  /\ isFocused (pageManager after) = false
  /\ focusedKey (pageManager after) = None.
Proof.
  intros p e after.
  split; [reflexivity|].
  destruct (onFocusIn_ignores_events_from_outside
              sampleHost sampleDom (listProps None) (Some listbox) None
              focusListManager_tracks_flag e p eq_refl)
    as (Hflag & Hkey & _).
  split; [exact Hflag|exact Hkey].
Defined.

Lemma onFocusIn_enters_at_the_near_end_witness :
  let p := startPage (blurred ["banana"; "apricot"] None) in
  let e := mkFocusEvent listbox 101%nat (Some 300%nat) in
  let after := onFocusIn sampleHost sampleDom (listProps None)
                 (Some listbox) None e p in
  isFocused (pageManager p) = false
  /\ contains sampleHost (currentTarget e) (eventTarget e) = true
  /\ focusedKey (pageManager p) = None
  /\ isFocused (pageManager after) = true
  /\ focusedKey (pageManager after) = Some "apricot".
Proof.
  intros p e after.
  split; [reflexivity|]. split; [reflexivity|]. split; [reflexivity|].
  destruct (onFocusIn_enters_at_the_near_end
              sampleHost sampleDom (listProps None) (Some listbox) None
              focusListManager_tracks_focus focusListManager_tracks_flag
              e p eq_refl eq_refl eq_refl)
    as (Hflag & Hkey & _).
  split; [exact Hflag|exact Hkey].
Defined.

Lemma focus_returns_to_the_focused_key_witness :
  let p := startPage (mkFocusListManager
                        (fruitManager single (Some "banana")) true) in
  let leave := mkFocusEvent listbox 101%nat (Some 999%nat) in
  let enter := mkFocusEvent listbox 101%nat (Some 999%nat) in
  let back := onFocusIn sampleHost sampleDom (listProps None) (Some listbox)
                None enter (onFocusOut sampleHost leave p) in
  focusedKey (pageManager p) = Some "banana"
  /\ contains sampleHost (currentTarget enter) (eventTarget enter) = true
  /\ isFocused (pageManager back) = true
  /\ focusedKey (pageManager back) = Some "banana".
Proof.
  intros p leave enter back.
  split; [reflexivity|]. split; [reflexivity|].
  destruct (focus_returns_to_the_focused_key
              sampleHost sampleDom (listProps None) (Some listbox) None
              focusListManager_tracks_flag leave enter p "banana"
              eq_refl eq_refl eq_refl)
    as (_ & Hflag & Hkey & _).
  split; [exact Hflag|exact Hkey].
Defined.

Lemma onFocusIn_twice_is_once_witness :
  let p := startPage (blurred ["banana"] None) in
  let e := mkFocusEvent listbox 101%nat None in
  contains sampleHost (currentTarget e) (eventTarget e) = true
  /\ onFocusIn sampleHost sampleDom (listProps None) (Some listbox) None e
       (onFocusIn sampleHost sampleDom (listProps None) (Some listbox) None e p)
     = onFocusIn sampleHost sampleDom (listProps None) (Some listbox) None e p.
Proof.
  intros p e.
  split; [reflexivity|].
  exact (onFocusIn_twice_is_once
           sampleHost sampleDom (listProps None) (Some listbox) None
           focusListManager_tracks_flag e p eq_refl).
Defined.

Lemma onFocusIn_restores_the_recorded_scroll_offset_witness :
  let p := mkPage (blurred [] (Some "banana")) false
                  (mkScrollPos 0 0) (mkScrollPos 40 0) [] in
  let e := mkFocusEvent listbox 101%nat None in
  let after :=
    onFocusIn sampleHost sampleDom (listProps None) (Some listbox) None e
      (withOffset (mkScrollPos 0 0)
         (onScroll (listProps None) (Some listbox) None p)) in
  truthy (isVirtualized (listProps None)) = false
  /\ _scrollRef (Some listbox) None = Some listbox
  /\ scrollOffset after
     = scrolledIntoView sampleDom listbox 102%nat (mkScrollPos 40 0)
  /\ domCalls after
     = [CallFocusWithoutScrolling 102%nat; CallScrollIntoView listbox 102%nat].
Proof.
  intros p e after.
  split; [reflexivity|]. split; [reflexivity|].
  destruct (onFocusIn_restores_the_recorded_scroll_offset
              sampleHost sampleDom (listProps None) (Some listbox) None
              focusListManager_tracks_flag e p (mkScrollPos 0 0)
              listbox "banana" eq_refl eq_refl eq_refl eq_refl eq_refl)
    as (_ & Hoffset & Hcalls).
  split; [exact Hoffset|exact Hcalls].
Defined.

Example onMount_selection_wins_over_strategy :
  focusedKey
    (pageManager
       (onMount (listProps None) (Some listbox)
                (Some (AutoFocusStrategy last))
                (startPage (blurred ["banana"] None))))
  = Some "banana".
Proof. reflexivity. Qed.

Example onMount_last_strategy :
  focusedKey
    (pageManager
       (onMount (listProps None) (Some listbox)
                (Some (AutoFocusStrategy last))
                (startPage (blurred [] None))))
  = Some "apricot".
Proof. reflexivity. Qed.

Example onMount_first_strategy :
  focusedKey
    (pageManager
       (onMount (listProps None) (Some listbox)
                (Some (AutoFocusStrategy first))
                (startPage (blurred [] None))))
  = Some "apple".
Proof. reflexivity. Qed.

Example onMount_plain_autoFocus_focuses_the_element :
  domCalls (onMount (listProps None) (Some listbox)
                    (Some (AutoFocusBool true))
                    (startPage (blurred [] None)))
  = [CallFocusSafely listbox].
Proof. reflexivity. Qed.

End FocusLaws.

(** ** Properties of the radio's tab index *)

Module RadioLaws.
Import Radio.

Lemma isTabStop_iff (state : RadioGroupState) (props : AriaRadioProps) :
  isTabStop state props = true
  <-> radioIsDisabled props state = false
      /\ match lastFocusedValue state with
         | Some v => value props = v
         | None => True
         end.
Proof.
  unfold isTabStop, tabIndex, isLastFocused.
  destruct (radioIsDisabled props state).
  { split; [discriminate|]. intros [Hd _]. discriminate. }
  destruct (lastFocusedValue state) as [v|]; [|simpl; tauto].
  rewrite orb_false_r.
  destruct (String.eqb_spec v (value props)) as [Heq|Hne]; simpl.
  - split; [auto|reflexivity].
  - split; [discriminate|]. intros [_ Hv]. congruence.
Qed.

Lemma filter_none (state : RadioGroupState) (radios : list AriaRadioProps) v :
  lastFocusedValue state = Some v ->
  ~ In v (map value radios) ->
  filter (isTabStop state) radios = [].
Proof.
  intros Hlast. induction radios as [|r rest IH]; intros Hnotin; [reflexivity|].
  simpl in *. destruct (isTabStop state r) eqn:Hr.
  - apply isTabStop_iff in Hr as [_ Hv]. rewrite Hlast in Hv. tauto.
  - apply IH. tauto.
Qed.

(** X26: the roving tab stop of a radio group.  A disabled radio has no
    tab index.  Before any radio has been focused every enabled radio is a
    tab stop; once a value [v] is recorded as last focused, a radio is a
    tab stop exactly when it is enabled and its value is [v], so among
    radios with distinct values there is at most one tab stop (and none
    when the radio with value [v] is disabled or gone). *)
Theorem radio_group_has_one_roving_tab_stop
    (state : RadioGroupState) (radios : list AriaRadioProps)
    (Hdistinct : NoDup (map value radios)) :
  (forall r, radioIsDisabled r state = true -> tabIndex r state = None)
  /\ match lastFocusedValue state with
     | None =>
         forall r, isTabStop state r = true <-> radioIsDisabled r state = false
     | Some v =>
         (forall r, isTabStop state r = true
                    <-> radioIsDisabled r state = false /\ value r = v)
         /\ (List.length (filter (isTabStop state) radios) <= 1)%nat
     end.
Proof.
  split.
  { intros r Hr. unfold tabIndex. now rewrite Hr. }
  destruct (lastFocusedValue state) as [v|] eqn:Hlast.
  - split.
    + intros r. rewrite isTabStop_iff, Hlast. tauto.
    + induction radios as [|r rest IH]; [simpl; lia|].
      inversion Hdistinct as [|? ? Hnotin Hrest]; subst.
      simpl. destruct (isTabStop state r) eqn:Hr; [|now apply IH].
      apply isTabStop_iff in Hr as [_ Hv]. rewrite Hlast in Hv. subst v.
      rewrite (filter_none state rest (value r) Hlast Hnotin). simpl. lia.
  - intros r. rewrite isTabStop_iff, Hlast. tauto.
Qed.

Lemma radio_group_has_one_roving_tab_stop_witness :
  let radios := [mkRadioProps "cat" None; mkRadioProps "dog" None;
                 mkRadioProps "fox" (Some true)] in
  NoDup (map value radios)
  /\ filter (isTabStop (mkRadioGroupState false (Some "dog"))) radios
     = [mkRadioProps "dog" None]
  /\ (List.length (filter (isTabStop (mkRadioGroupState false (Some "fox")))
                          radios) <= 1)%nat.
Proof.
  intros radios.
  assert (Hdistinct : NoDup (map value radios))
    by (repeat constructor; simpl; intuition discriminate).
  split; [exact Hdistinct|]. split; [reflexivity|].
  destruct (radio_group_has_one_roving_tab_stop
              (mkRadioGroupState false (Some "fox")) radios Hdistinct)
    as (_ & _ & Hcount).
  exact Hcount.
Defined.

End RadioLaws.

(** ** Properties of the visually hidden styles *)

Module VisuallyHiddenLaws.
Import VisuallyHidden.

Lemma getProperty_setProperty name k v o :
  getProperty name (setProperty k v o)
  = if (k =? name)%string then Some v else getProperty name o.
Proof.
  induction o as [|[k0 v0] rest IH]; simpl.
  - reflexivity.
  - destruct (String.eqb_spec k0 k) as [->|Hne]; simpl.
    + now destruct (k =? name)%string.
    + rewrite IH. destruct (String.eqb_spec k0 name) as [->|];
        [|reflexivity].
      destruct (String.eqb_spec k name); [congruence|reflexivity].
Qed.

Lemma getProperty_absent name (o : CSSProperties) :
  ~ In name (map fst o) -> getProperty name o = None.
Proof.
  induction o as [|[k v] rest IH]; simpl; [reflexivity|].
  intros Hnotin. destruct (String.eqb_spec k name); [tauto|].
  apply IH. tauto.
Qed.

Lemma getProperty_copyProperties name (source : CSSProperties) :
  NoDup (map fst source) ->
  forall o,
    getProperty name (copyProperties source o)
    = match getProperty name source with
      | Some v => Some v
      | None => getProperty name o
      end.
Proof.
  unfold copyProperties.
  induction source as [|[k v] rest IH]; intros Hnd o; [reflexivity|].
  inversion Hnd as [|? ? Hnotin Hrest]; subst.
  simpl fold_left. rewrite IH by assumption. simpl.
  rewrite getProperty_setProperty.
  destruct (String.eqb_spec k name) as [->|]; [|reflexivity].
  now rewrite getProperty_absent.
Qed.

Lemma in_names_setProperty name k v (o : CSSProperties) :
  In name (map fst (setProperty k v o)) <-> name = k \/ In name (map fst o).
Proof.
  induction o as [|[k0 v0] rest IH]; simpl.
  - intuition.
  - destruct (String.eqb_spec k0 k) as [->|]; simpl; [intuition|].
    rewrite IH. intuition.
Qed.

Lemma NoDup_setProperty k v (o : CSSProperties) :
  NoDup (map fst o) -> NoDup (map fst (setProperty k v o)).
Proof.
  induction o as [|[k0 v0] rest IH]; simpl; intros Hnd.
  - repeat constructor. intros [].
  - inversion Hnd as [|? ? Hnotin Hrest]; subst.
    destruct (String.eqb_spec k0 k) as [->|Hne]; simpl.
    + now constructor.
    + constructor; [|auto].
      rewrite in_names_setProperty. intros [->|]; tauto.
Qed.

Lemma NoDup_copyProperties (source : CSSProperties) :
  forall o, NoDup (map fst o) -> NoDup (map fst (copyProperties source o)).
Proof.
  unfold copyProperties.
  induction source as [|[k v] rest IH]; intros o Hnd; [assumption|].
  simpl. apply IH. now apply NoDup_setProperty.
Qed.

(** X27: the style of a visually hidden element.  While focused, the
    style given is passed on as it is.  While not focused, a style object
    is laid over the hiding styles: each property has the value the given
    object gives it, and otherwise the hiding value, so all ten hiding
    properties are present and each name occurs once; a style given as a
    string, or none, is replaced by the hiding styles alone. *)
Theorem combinedStyles_lays_the_style_over_the_hiding_styles
    (o : CSSProperties) (Hobject : NoDup (map fst o)) :
  (forall style, combinedStyles true style = style)
  /\ (forall s, combinedStyles false (Some (StyleString s))
                = Some (StyleObject visuallyHiddenStyles))
  /\ combinedStyles false None = Some (StyleObject visuallyHiddenStyles)
  /\ exists merged,
       combinedStyles false (Some (StyleObject o)) = Some (StyleObject merged)
       /\ NoDup (map fst merged)
       /\ (forall name,
             getProperty name merged
             = match getProperty name o with
               | Some v => Some v
               | None => getProperty name visuallyHiddenStyles
               end)
       /\ (forall name, In name (map fst visuallyHiddenStyles) ->
                        getProperty name merged <> None).
Proof.
  repeat split.
  exists (spread visuallyHiddenStyles o).
  assert (Hhidden : NoDup (map fst visuallyHiddenStyles))
    by (repeat constructor; simpl; intuition discriminate).
  assert (Hget : forall name,
    getProperty name (spread visuallyHiddenStyles o)
    = match getProperty name o with
      | Some v => Some v
      | None => getProperty name visuallyHiddenStyles
      end).
  { intros name. unfold spread.
    rewrite !getProperty_copyProperties by assumption.
    destruct (getProperty name o); [reflexivity|].
    now destruct (getProperty name visuallyHiddenStyles). }
  split; [reflexivity|]. split; [|split; [exact Hget|]].
  - unfold spread. apply NoDup_copyProperties, NoDup_copyProperties.
    constructor.
  - intros name Hname. rewrite Hget.
    destruct (getProperty name o); [discriminate|].
    simpl in Hname.
    repeat (destruct Hname as [<-|Hname]; [discriminate|]).
    destruct Hname.
Qed.

Lemma combinedStyles_lays_the_style_over_the_hiding_styles_witness :
  let mine := [("width", CssNumber 20); ("color", CssString "red")] in
  NoDup (map fst mine)
  /\ exists merged,
       combinedStyles false (Some (StyleObject mine)) = Some (StyleObject merged)
       /\ getProperty "width" merged = Some (CssNumber 20)
       /\ getProperty "height" merged = Some (CssNumber 1)
       /\ getProperty "color" merged = Some (CssString "red").
Proof.
  intros mine.
  assert (Hobject : NoDup (map fst mine))
    by (repeat constructor; simpl; intuition discriminate).
  split; [exact Hobject|].
  destruct (combinedStyles_lays_the_style_over_the_hiding_styles mine Hobject)
    as (_ & _ & _ & merged & Hmerged & _ & Hget & _).
  exists merged. split; [exact Hmerged|].
  rewrite !Hget. repeat split.
Defined.

End VisuallyHiddenLaws.
